(** * ASF download integrity checker: a shallow embedding of [main.py]

    The checker walks a project's distribution tree, verifies every
    artefact with a known extension against its checksum side files
    and its detached signature, and collects the error lines per file
    path.  This development embeds [verify_checksum], [push_error],
    [verify_files], [load_keys] and the scan loop of [main] as Rocq
    functions and proves properties of them.

    Conventions of the embedding:
    - paths, file names, algorithm names and error lines are [string]s:
      sequences of bytes, the UTF-8 form of the Python [str]; the
      operations applied to them (concatenation, splitting at a dot or
      a slash, comparison) read the same on both forms;
    - the content of a file is a [string] of bytes; the text that
      [open(..., "r").read()] makes of it is a list of Unicode code
      points, obtained with the codec of the locale, and whitespace in
      it is that of [str.isspace] on all of Unicode;
    - the text values of the GnuPG wrapper, which decodes the output of
      the tool as Latin-1, are [string]s with one byte per code point;
    - the file system is a finite map from paths to nodes, and
      [os.walk] is an oracle of the world (directory enumeration is a
      collaborator of the checker);
    - [hashlib] and the GnuPG tool chain are parameters of the
      development;
    - the exceptions a statement can raise are values of [exn], and
      code runs in the error monad [res]. *)

From Stdlib Require Import ZArith QArith String Ascii List Lia.
From stdpp Require Import base option gmap strings list.

Open Scope string_scope.
Open Scope list_scope.

(** ** Exceptions and the error monad *)

Inductive exn :=
  | FileNotFoundError
  | IsADirectoryError
  | ValueError
  | TypeError
  | IndexError
  | UnboundLocalError
  | AssertionError
  | PermissionError
  | UnicodeDecodeError.

Inductive res (A : Type) :=
  | Ok (a : A)
  | Raise (e : exn).
Arguments Ok {A} a.
Arguments Raise {A} e.

#[global] Instance res_bind : MBind res := fun A B k r =>
  match r with
  | Ok a => k a
  | Raise e => Raise e
  end.

(** ** Python string operations used by the checker *)

Module Py.

(** [str.isspace] on the code points below 256, one byte each: TAB,
    LF, VT, FF, CR, FS, GS, RS, US, the space character, NEL (133) and
    the no-break space (160).  This is the whitespace that [int] strips
    from the text values of the GnuPG wrapper. *)
Definition isspace (c : ascii) : bool :=
  let n := nat_of_ascii c in
  ((9 <=? n)%nat && (n <=? 13)%nat) || ((28 <=? n)%nat && (n <=? 32)%nat)
  || (n =? 133)%nat || (n =? 160)%nat.

(** [c in string.hexdigits], that is [0123456789abcdefABCDEF]. *)
Definition ishex (c : ascii) : bool :=
  let n := nat_of_ascii c in
  ((48 <=? n)%nat && (n <=? 57)%nat)
  || ((97 <=? n)%nat && (n <=? 102)%nat)
  || ((65 <=? n)%nat && (n <=? 70)%nat).

Fixpoint all (p : ascii -> bool) (s : string) : bool :=
  match s with
  | EmptyString => true
  | String c s' => p c && all p s'
  end.

Fixpoint contains (c : ascii) (s : string) : bool :=
  match s with
  | EmptyString => false
  | String d s' => if Ascii.eqb d c then true else contains c s'
  end.

Fixpoint lstrip (s : string) : string :=
  match s with
  | EmptyString => EmptyString
  | String c s' => if isspace c then lstrip s' else s
  end.

Fixpoint rstrip (s : string) : string :=
  match s with
  | EmptyString => EmptyString
  | String c s' =>
      match rstrip s' with
      | EmptyString => if isspace c then EmptyString else String c EmptyString
      | t => String c t
      end
  end.

Definition strip (s : string) : string := rstrip (lstrip s).

(** [s.split(sep)] for a one-character separator: the result is never
    empty, and adjacent separators delimit empty strings. *)
Fixpoint split (sep : ascii) (s : string) : list string :=
  match s with
  | EmptyString => [EmptyString]
  | String c s' =>
      if Ascii.eqb c sep then EmptyString :: split sep s'
      else match split sep s' with
           | t :: ts => String c t :: ts
           | [] => [String c EmptyString]
           end
  end.

(** ["".join(l)] *)
Definition join (l : list string) : string :=
  fold_right String.append EmptyString l.

Definition lower_char (c : ascii) : ascii :=
  let n := nat_of_ascii c in
  if (65 <=? n)%nat && (n <=? 90)%nat then ascii_of_nat (n + 32) else c.

Fixpoint lower (s : string) : string :=
  match s with
  | EmptyString => EmptyString
  | String c s' => String (lower_char c) (lower s')
  end.

(** [l[-1]] on a list that is never empty ([split] returns at least
    one string). *)
Definition last_item (l : list string) : string := List.last l EmptyString.

(** [s.endswith(c)] for a one-character suffix. *)
Fixpoint endswith (c : ascii) (s : string) : bool :=
  match s with
  | EmptyString => false
  | String d EmptyString => Ascii.eqb d c
  | String _ s' => endswith c s'
  end.

(** [sorted(l)] on strings: code-point order, which is the byte order
    of the UTF-8 form. *)
Fixpoint insert_sorted (x : string) (l : list string) : list string :=
  match l with
  | [] => [x]
  | y :: l' => if String.leb x y then x :: l else y :: insert_sorted x l'
  end.

Definition sorted (l : list string) : list string :=
  fold_right insert_sorted [] l.

(** [hexdigest()]: two lower-case hexadecimal digits for each byte. *)
Definition hex_char (n : nat) : ascii :=
  if (n <? 10)%nat then ascii_of_nat (48 + n) else ascii_of_nat (87 + n).

Fixpoint hexlify (s : string) : string :=
  match s with
  | EmptyString => EmptyString
  | String c s' =>
      let n := nat_of_ascii c in
      String (hex_char (n / 16)) (String (hex_char (n mod 16)) (hexlify s'))
  end.

(** Values that reach [int(...)]: the GnuPG wrapper reports time stamps
    as text, possibly empty, or leaves them unset. *)
Inductive value :=
  | PNone
  | PStr (s : string)
  | PInt (z : Z).

(** A decimal digit: below code point 256 these are [0] to [9] only. *)
Definition digit_of (c : ascii) : option Z :=
  let n := nat_of_ascii c in
  if (48 <=? n)%nat && (n <=? 57)%nat then Some (Z.of_nat (n - 48)) else None.

(** Decimal digits, with single underscores allowed between digits. *)
Fixpoint digits_go (acc : Z) (after_digit : bool) (s : string) : option Z :=
  match s with
  | EmptyString => if after_digit then Some acc else None
  | String c s' =>
      match digit_of c with
      | Some d => digits_go (10 * acc + d)%Z true s'
      | None =>
          if Ascii.eqb c "_" && after_digit then digits_go acc false s'
          else None
      end
  end.

Definition int_of_str (s : string) : option Z :=
  match strip s with
  | String "+" r => digits_go 0 false r
  | String "-" r => Z.opp <$> digits_go 0 false r
  | t => digits_go 0 false t
  end.

(** [int(v)] *)
Definition int (v : value) : res Z :=
  match v with
  | PNone => Raise TypeError
  | PInt z => Ok z
  | PStr s =>
      match int_of_str s with
      | Some z => Ok z
      | None => Raise ValueError
      end
  end.

(** [f"{v}"] for an optional string: [None] prints as its name. *)
Definition fmt (v : option string) : string :=
  match v with
  | Some s => s
  | None => "None"
  end.

End Py.

(** ** Text: the [str] that reading a file in text mode gives *)

Module Uni.

(** [str.isspace] for one character, by code point: TAB to CR, FS to
    US, the space character, NEL, the no-break space, the Ogham space
    mark, EN QUAD to HAIR SPACE, the line and paragraph separators, the
    narrow no-break space, the medium mathematical space and the
    ideographic space. *)
Definition isspace (c : N) : bool :=
  ((9 <=? c) && (c <=? 13) || (28 <=? c) && (c <=? 32)
   || (c =? 133) || (c =? 160) || (c =? 5760)
   || (8192 <=? c) && (c <=? 8202)
   || (c =? 8232) || (c =? 8233) || (c =? 8239) || (c =? 8287)
   || (c =? 12288))%N.

(** [c in string.hexdigits] *)
Definition ishex (c : N) : bool :=
  ((48 <=? c) && (c <=? 57) || (97 <=? c) && (c <=? 102)
   || (65 <=? c) && (c <=? 70))%N.

Fixpoint lstrip (s : list N) : list N :=
  match s with
  | [] => []
  | c :: s' => if isspace c then lstrip s' else s
  end.

Fixpoint rstrip (s : list N) : list N :=
  match s with
  | [] => []
  | c :: s' =>
      match rstrip s' with
      | [] => if isspace c then [] else [c]
      | t => c :: t
      end
  end.

(** [s.strip()] *)
Definition strip (s : list N) : list N := rstrip (lstrip s).

(** [s.split(sep)] for a one-character separator. *)
Fixpoint split (sep : N) (s : list N) : list (list N) :=
  match s with
  | [] => [[]]
  | c :: s' =>
      if (c =? sep)%N then [] :: split sep s'
      else match split sep s' with
           | t :: ts => (c :: t) :: ts
           | [] => [[c]]
           end
  end.

(** [s.split()]: the maximal runs of characters that are not
    whitespace. *)
Fixpoint split_ws (s : list N) : list (list N) :=
  match s with
  | [] => []
  | c :: s' =>
      if isspace c then split_ws s'
      else
        match s' with
        | [] => [[c]]
        | d :: _ =>
            if isspace d then [c] :: split_ws s'
            else match split_ws s' with
                 | t :: ts => (c :: t) :: ts
                 | [] => [[c]]
                 end
        end
  end.

(** The bytes of a text of code points below 128, such as hexadecimal
    digits: one byte for each. *)
Definition bytes (s : list N) : string :=
  fold_right (fun c r => String (ascii_of_N c) r) EmptyString s.

(** The code points of a text of such bytes. *)
Fixpoint codes (s : string) : list N :=
  match s with
  | EmptyString => []
  | String c s' => N_of_ascii c :: codes s'
  end.

(** Text mode with the default [newline=None]: a carriage return, with
    the line feed that follows it if there is one, is read as a line
    feed. *)
Fixpoint newlines (s : list N) : list N :=
  match s with
  | [] => []
  | c :: s' =>
      if (c =? 13)%N then
        match s' with
        | d :: s'' => if (d =? 10)%N then 10%N :: newlines s'' else 10%N :: newlines s'
        | [] => [10%N]
        end
      else c :: newlines s'
  end.

(** A continuation byte of UTF-8 and the six bits it carries. *)
Definition continuation (b : ascii) : option N :=
  let n := N_of_ascii b in
  if ((128 <=? n) && (n <=? 191))%N then Some (n - 128)%N else None.

(** The strict UTF-8 codec: no overlong forms, no surrogates, nothing
    above U+10FFFF; [None] stands for [UnicodeDecodeError]. *)
Fixpoint utf8_decode (s : string) : option (list N) :=
  match s with
  | EmptyString => Some []
  | String b0 r0 =>
      let n0 := N_of_ascii b0 in
      if (n0 <? 128)%N then cons n0 <$> utf8_decode r0
      else if ((194 <=? n0) && (n0 <=? 223))%N then
        match r0 with
        | String b1 r1 =>
            match continuation b1 with
            | Some c1 => cons ((n0 - 192) * 64 + c1)%N <$> utf8_decode r1
            | None => None
            end
        | _ => None
        end
      else if ((224 <=? n0) && (n0 <=? 239))%N then
        match r0 with
        | String b1 (String b2 r2) =>
            match continuation b1, continuation b2 with
            | Some c1, Some c2 =>
                let cp := ((n0 - 224) * 4096 + c1 * 64 + c2)%N in
                if ((2048 <=? cp) && negb ((55296 <=? cp) && (cp <=? 57343)))%N
                then cons cp <$> utf8_decode r2
                else None
            | _, _ => None
            end
        | _ => None
        end
      else if ((240 <=? n0) && (n0 <=? 244))%N then
        match r0 with
        | String b1 (String b2 (String b3 r3)) =>
            match continuation b1, continuation b2, continuation b3 with
            | Some c1, Some c2, Some c3 =>
                let cp := ((n0 - 240) * 262144 + c1 * 4096 + c2 * 64 + c3)%N in
                if ((65536 <=? cp) && (cp <=? 1114111))%N
                then cons cp <$> utf8_decode r3
                else None
            | _, _, _ => None
            end
        | _ => None
        end
      else None
  end.

End Uni.

(** [os.path.basename]: what follows the last slash. *)
Definition basename (p : string) : string := Py.last_item (Py.split "/" p).

(** [os.path.join] of two components. *)
Definition path_join (a p : string) : string :=
  match p with
  | String "/" _ => p
  | _ =>
      match a with
      | EmptyString => p
      | _ => if Py.endswith "/" a then a +:+ p else a +:+ "/" +:+ p
      end
  end.

(** ** The world: file system, configuration, collaborators *)

(** What is at a path: a file, a directory, or a file that the checker
    is not permitted to open. *)
Inductive node :=
  | File (content : string) (st_mtime : Q)
  | Dir (st_mtime : Q)
  | Unreadable (st_mtime : Q).

Definition mtime_of (n : node) : Q :=
  match n with
  | File _ t => t
  | Dir t => t
  | Unreadable t => t
  end.

(** [nodes] maps a path to what is there; [os_walk p] lists, for the
    tree under [p] and in walk order, each directory with the names of
    its non-directory entries. *)
Record world := {
  nodes : gmap string node;
  os_walk : string -> list (string * list string);
}.

(** [os.path.exists] *)
Definition path_exists (w : world) (p : string) : bool :=
  bool_decide (is_Some (nodes w !! p)).

(** [os.path.isdir] *)
Definition isdir (w : world) (p : string) : bool :=
  match nodes w !! p with
  | Some (Dir _) => true
  | _ => false
  end.

(** [open(p, "rb").read()]: the bytes of a file. *)
Definition read_file (w : world) (p : string) : res string :=
  match nodes w !! p with
  | Some (File content _) => Ok content
  | Some (Dir _) => Raise IsADirectoryError
  | Some (Unreadable _) => Raise PermissionError
  | None => Raise FileNotFoundError
  end.

(** [open(p, "r").read()]: the text of a file.  [decode] is the codec
    of the locale, with [None] where it raises [UnicodeDecodeError]. *)
Definition read_text (decode : string -> option (list N)) (w : world)
    (p : string) : res (list N) :=
  content ← read_file w p;
  match decode content with
  | Some text => Ok (Uni.newlines text)
  | None => Raise UnicodeDecodeError
  end.

(** What [hashlib.new] returns: an object whose [hexdigest()] gives the
    digest of the bytes it was fed, or, for the algorithms of variable
    length ([shake_128], [shake_256]), one whose [hexdigest] needs a
    length. *)
Inductive digester :=
  | Fixed (h : string -> string)
  | NeedsLength.

(** [os.stat(p).st_mtime] *)
Definition stat_mtime (w : world) (p : string) : res Q :=
  match nodes w !! p with
  | Some n => Ok (mtime_of n)
  | None => Raise FileNotFoundError
  end.

(** The entries of [checker.yaml] that the checker reads.  An absent
    [strong_checksum_deadline] is [None]; [CFG.get] then yields 0. *)
Record config := {
  dist_dir : string;
  gpg_homedir : string;
  known_extensions : list string;
  strong_checksums : list string;
  weak_checksums : list string;
  strong_checksum_deadline : option Q;
}.

(** A key as [list_keys] reports it. *)
Record key := {
  fingerprint : string;
  expires : Py.value;
  uids : list string;
}.

(** The result of [verify_file]. *)
Record verify := {
  valid : bool;
  vfingerprint : option string;
  sig_timestamp : Py.value;
  status : option string;
}.

(** ** The report and the local variables of [verify_files] *)

(** The second argument of [push_error] is a list of lines or one line. *)
Inductive errmsg :=
  | Lines (l : list string)
  | Line (s : string).

Definition push_error (edict : gmap string (list string)) (filepath : string)
    (msg : errmsg) : gmap string (list string) :=
  let current := default [] (edict !! filepath) in
  match msg with
  | Lines l => <[filepath := current ++ l]> edict
  | Line s => <[filepath := current ++ [s]]> edict
  end.

(** The variables of [verify_files] that live across statements:
    [errors], the counter, and the loop variables [method] and
    [chkfile], which Python keeps after a loop ends (and across the
    files of the walk) and which are unbound until first assigned. *)
Record locals := {
  errors : gmap string (list string);
  valid_checksums_found : Z;
  method : option string;
  chkfile : option string;
}.

Definition init_locals : locals :=
  {| errors := ∅; valid_checksums_found := 0; method := None; chkfile := None |}.

Definition set_errors (e : gmap string (list string)) (st : locals) : locals :=
  {| errors := e; valid_checksums_found := valid_checksums_found st;
     method := method st; chkfile := chkfile st |}.

Definition set_valid (n : Z) (st : locals) : locals :=
  {| errors := errors st; valid_checksums_found := n;
     method := method st; chkfile := chkfile st |}.

Definition set_method (m : string) (st : locals) : locals :=
  {| errors := errors st; valid_checksums_found := valid_checksums_found st;
     method := Some m; chkfile := chkfile st |}.

Definition set_chkfile (c : string) (st : locals) : locals :=
  {| errors := errors st; valid_checksums_found := valid_checksums_found st;
     method := method st; chkfile := Some c |}.

Definition push (filepath : string) (msg : errmsg) (st : locals) : locals :=
  set_errors (push_error (errors st) filepath msg) st.

Definition incr_valid (st : locals) : locals :=
  set_valid (valid_checksums_found st + 1) st.

(** Reading a local variable that may still be unbound. *)
Definition local {A : Type} (v : option A) : res A :=
  match v with
  | Some a => Ok a
  | None => Raise UnboundLocalError
  end.

(** A [for] loop whose body updates a state and may raise. *)
Fixpoint for_each {A S : Type} (body : A -> S -> res S) (l : list A) (s : S)
    : res S :=
  match l with
  | [] => Ok s
  | a :: l' => s' ← body a s; for_each body l' s'
  end.

(** ** Error lines *)

Definition msg_mismatch (checksum_filename : string) : string :=
  "Checksum does not match checksum file " +:+ checksum_filename +:+ "!".

Definition msg_calculated (method filename calculated : string) : string :=
  "Calculated " +:+ method +:+ " checksum of " +:+ filename +:+ " was: " +:+ calculated.

Definition msg_on_disk (checksum_filename on_disk : string) : string :=
  "Checksum file " +:+ checksum_filename +:+ " said it should have been: " +:+ on_disk.

Definition msg_no_checksum (filename : string) : string :=
  "No valid checksum files (.md5, .sha1, .sha256, .sha512) found for " +:+ filename.

Definition msg_no_strong_checksum (filename : string) : string :=
  "No valid checksum files (.sha256, .sha512) found for " +:+ filename.

Definition msg_unknown_fingerprint (filename : string) (fp : option string) : string :=
  "The signature file " +:+ filename
  +:+ " was signed with a fingerprint not found in the project's KEYS file: "
  +:+ Py.fmt fp.

Definition msg_expired (filename fp_owner : string) (fp : option string) : string :=
  "Detached signature file " +:+ filename +:+ ".asc was signed by " +:+ fp_owner
  +:+ " (" +:+ Py.fmt fp +:+ ") but the key has expired!".

Definition msg_status (filename : string) (status : option string) : string :=
  "Detached signature file " +:+ filename +:+ ".asc could not be used to verify "
  +:+ filename +:+ ": " +:+ Py.fmt status.

(** ** The checker *)

Section Checker.

(** [hashlib.new(method)]: [None] for an unsupported name, else the
    digester, which for an algorithm of fixed length is the function
    from the bytes of a file to the bytes of their digest (feeding the
    file in chunks of [CHUNK_SIZE] bytes does not change the digest). *)
Variable hashlib : string -> option digester.

(** The codec with which files are read in text mode. *)
Variable decode : string -> option (list N).

(** [keychain.verify_file]: the keys of the key ring, the bytes of the
    signature and the data file. *)
Variable gpg_verify : list key -> string -> res string -> verify.

(** The keys that a block of armoured key material holds. *)
Variable gpg_parse : string -> list key.

Variable CFG : config.

(** *** [digest] and [verify_checksum] *)

Definition digest (w : world) (filepath method : string) : res string :=
  match hashlib method with
  | None => Raise ValueError
  | Some digester =>
      content ← read_file w filepath;
      match digester with
      | Fixed h => Ok (Py.hexlify (h content))
      | NeedsLength => Raise TypeError
      end
  end.

(** The digest that a checksum file declares: lines 100 and 101.  The
    pieces that are kept are made of hexadecimal digits, so that the
    result is given by its bytes. *)
Definition checksum_on_disk (text : list N) : string :=
  let checksum_options := Uni.split 32 (Uni.strip text) in
  Py.lower
    (Py.join
       (map (fun x => Uni.bytes (Uni.strip x))
          (List.filter (fun x => forallb Uni.ishex (Uni.strip x)) checksum_options))).

Definition verify_checksum (w : world) (filepath method : string)
    : res (list string) :=
  let filename := basename filepath in
  let checksum_filepath := filepath +:+ "." +:+ method in
  let checksum_filename := basename checksum_filepath in
  text ← read_text decode w checksum_filepath;
  let on_disk := checksum_on_disk text in
  calculated ← digest w filepath method;
  if negb (String.eqb on_disk calculated) then
    Ok [ msg_mismatch checksum_filename;
         msg_calculated method filename calculated;
         msg_on_disk checksum_filename on_disk ]
  else Ok [].

(** *** [verify_files] *)

(** The extension of a file name: line 131. *)
Definition extension (filename : string) : string :=
  if Py.contains "." filename then Py.last_item (Py.split "." filename)
  else EmptyString.

(** Line 132. *)
Definition selected (filename : string) : bool :=
  bool_decide (extension filename ∈ known_extensions CFG).

(** Line 127. *)
Definition known_fingerprints (keychain : list key) : gmap string key :=
  fold_left (fun m k => <[fingerprint k := k]> m) keychain ∅.

(** Line 128. *)
Definition deadline : Q := default 0%Q (strong_checksum_deadline CFG).

(** Lines 142 to 145 and 153 to 157: the outcome of one checksum. *)
Definition record_checksum (filepath : string) (file_errors : list string)
    (st : locals) : locals :=
  match file_errors with
  | [] => incr_valid st
  | _ => push filepath (Lines file_errors) st
  end.

(** The body of the loop over the strong checksums: lines 139 to 145. *)
Definition check_strong (w : world) (filepath m : string) (st : locals)
    : res locals :=
  let st := set_chkfile (filepath +:+ "." +:+ m) (set_method m st) in
  if path_exists w (filepath +:+ "." +:+ m) then
    file_errors ← verify_checksum w filepath m;
    Ok (record_checksum filepath file_errors st)
  else Ok st.

(** The loop over the weak checksums binds [method] and [chkfile] and
    does nothing else: lines 150 and 151. *)
Definition bind_weak (filepath : string) (st : locals) (m : string) : locals :=
  set_chkfile (filepath +:+ "." +:+ m) (set_method m st).

(** Lines 150 to 160. *)
Definition weak_fallback (w : world) (filename filepath : string) (st : locals)
    : res locals :=
  let st := fold_left (bind_weak filepath) (weak_checksums CFG) st in
  c ← local (chkfile st);
  st ← (if path_exists w c then
          m ← local (method st);
          file_errors ← verify_checksum w filepath m;
          Ok (record_checksum filepath file_errors st)
        else Ok st);
  if (valid_checksums_found st =? 0)%Z then
    Ok (push filepath (Line (msg_no_checksum filename)) st)
  else Ok st.

(** Lines 136 to 164. *)
Definition verify_checksums (w : world) (filename filepath : string)
    (st : locals) : res locals :=
  let st := set_valid 0 st in
  st ← for_each (check_strong w filepath) (strong_checksums CFG) st;
  if (valid_checksums_found st =? 0)%Z then
    mtime ← stat_mtime w filepath;
    if Qle_bool mtime deadline then weak_fallback w filename filepath st
    else Ok (push filepath (Line (msg_no_strong_checksum filename)) st)
  else Ok st.

(** [uids[0]] *)
Definition first_uid (k : key) : res string :=
  match uids k with
  | u :: _ => Ok u
  | [] => Raise IndexError
  end.

(** The key of the finger print that the verification reports, when
    the finger print map has it: lines 171 and 174. *)
Definition known_key (known : gmap string key) (verified : verify) : option key :=
  vfingerprint verified ≫= (known !!.).

(** Lines 167 to 182. *)
Definition verify_signature (w : world) (keychain : list key)
    (known : gmap string key) (filename filepath : string) (st : locals)
    : res locals :=
  let asc_filepath := filepath +:+ ".asc" in
  if path_exists w asc_filepath then
    asc ← read_file w asc_filepath;
    let verified := gpg_verify keychain asc (read_file w filepath) in
    if negb (valid verified) then
      match known_key known verified with
      | None =>
          Ok (push filepath
                (Line (msg_unknown_fingerprint filename (vfingerprint verified)))
                st)
      | Some fp =>
          fp_expires ← Py.int (expires fp);
          signed_at ← Py.int (sig_timestamp verified);
          if (fp_expires <? signed_at)%Z then
            fp_owner ← first_uid fp;
            Ok (push filepath
                  (Line (msg_expired filename fp_owner (vfingerprint verified)))
                  st)
          else if negb (bool_decide (status verified = Some "signature valid")) then
            Ok (push filepath (Line (msg_status filename (status verified))) st)
          else Ok st
      end
    else Ok st
  else Ok st.

(** What is done for a file that is selected: lines 133 to 182. *)
Definition verify_artifact (w : world) (keychain : list key)
    (known : gmap string key) (root filename : string) (st : locals)
    : res locals :=
  let filepath := path_join root filename in
  st ← verify_checksums w filename filepath st;
  verify_signature w keychain known filename filepath st.

(** The body of the loop over the files of a directory: lines 131 to 182. *)
Definition verify_file (w : world) (keychain : list key)
    (known : gmap string key) (root filename : string) (st : locals)
    : res locals :=
  if selected filename then verify_artifact w keychain known root filename st
  else Ok st.

(** The body of the loop over the walk: line 130. *)
Definition verify_dir (w : world) (keychain : list key)
    (known : gmap string key) (entry : string * list string) (st : locals)
    : res locals :=
  for_each (verify_file w keychain known (fst entry)) (Py.sorted (snd entry)) st.

(** The two loops, with the local variables at their end. *)
Definition verify_walk (w : world) (project : string) (keychain : list key)
    : res locals :=
  let path := path_join (dist_dir CFG) project in
  let known := known_fingerprints keychain in
  for_each (verify_dir w keychain known) (os_walk w path) init_locals.

Definition verify_files (w : world) (project : string) (keychain : list key)
    : res (gmap string (list string)) :=
  st ← verify_walk w project keychain;
  Ok (errors st).

(** The artefacts of a pass, in the order in which the two loops reach
    them: directory and file name. *)
Definition artifacts (w : world) (project : string) : list (string * string) :=
  flat_map
    (fun entry => map (pair (fst entry)) (List.filter selected (Py.sorted (snd entry))))
    (os_walk w (path_join (dist_dir CFG) project)).

(** The local variables once the loops have gone through [arts]. *)
Definition locals_after (w : world) (keychain : list key)
    (arts : list (string * string)) : res locals :=
  for_each
    (fun a => verify_artifact w keychain
                (known_fingerprints keychain) (fst a) (snd a))
    arts init_locals.

(** *** [load_keys] and the scan loop of [main] *)

(** GnuPG keeps one key ring per home directory, on disk.  Importing a
    key that the ring holds replaces its record, a new key is added at
    the end; importing the same material twice changes nothing more. *)
Definition import_key (keyring : list key) (k : key) : list key :=
  if bool_decide (fingerprint k ∈ map fingerprint keyring) then
    map (fun k0 => if String.eqb (fingerprint k0) (fingerprint k) then k else k0)
      keyring
  else keyring ++ [k].

(** [keychain.import_keys] *)
Definition import_keys (keyring : list key) (material : string) : list key :=
  fold_left import_key (gpg_parse material) keyring.

(** The body of the loop over the files of a directory: lines 78 to 82. *)
Definition load_file (w : world) (root filename : string) (keyring : list key)
    : res (list key) :=
  let filepath := path_join root filename in
  if bool_decide (filename ∈ ["KEYS"; "KEYS.txt"]) then
    material ← read_file w filepath;
    Ok (import_keys keyring material)
  else Ok keyring.

Definition load_dir (w : world) (entry : string * list string)
    (keyring : list key) : res (list key) :=
  for_each (load_file w (fst entry)) (snd entry) keyring.

(** [homes] maps the path of a GnuPG home directory that exists to its
    key ring.  [load_keys] creates the project's home when it is not
    there, opens the key ring it holds and imports every KEYS file of
    the project's tree into it; it returns the home directories as they
    are afterwards and the keys of the tool chain object. *)
Definition load_keys (w : world) (homes : gmap string (list key))
    (project : string) : res (gmap string (list key) * list key) :=
  let project_dir := path_join (dist_dir CFG) project in
  let project_gpg_dir := path_join (gpg_homedir CFG) project in
  if negb (negb (String.eqb project EmptyString) && isdir w project_dir) then
    Raise AssertionError
  else
    let homes :=
      if negb (bool_decide (is_Some (homes !! project_gpg_dir)))
      then <[project_gpg_dir := []]> homes else homes in
    let keyring := default [] (homes !! project_gpg_dir) in
    keyring ← for_each (load_dir w) (os_walk w project_dir) keyring;
    Ok (<[project_gpg_dir := keyring]> homes, keyring).

(** The body of the loop over the projects: lines 206 and 207.  The
    result carries the finger print map the pass used and its report. *)
Definition scan_project (w : world) (project : string)
    (acc : gmap string (list key) * list (string * gmap string (list string)))
    : res (gmap string (list key) * list (string * gmap string (list string))) :=
  r ← load_keys w (fst acc) project;
  errors ← verify_files w project (snd r);
  Ok (fst r, snd acc ++ [(project, errors)]).

(** One pass of the [while] loop over the projects. *)
Definition scan_pass (projects : list string) (w : world)
    (homes : gmap string (list key))
    : res (gmap string (list key) * list (string * gmap string (list string))) :=
  for_each (scan_project w) projects (homes, []).

(** The finger print map that [verify_files] builds in a pass over
    [project]. *)
Definition pass_fingerprints (w : world) (homes : gmap string (list key))
    (project : string) : res (gmap string key) :=
  r ← load_keys w homes project;
  Ok (known_fingerprints (snd r)).

End Checker.

(** ** The specification's wording, for comparison with the code *)

(** The expected digest as the specification words it: split the text
    on whitespace, keep the tokens made of hexadecimal characters only,
    concatenate and lower-case them. *)
Definition spec_expected_digest (text : list N) : string :=
  Py.lower
    (Py.join (map Uni.bytes (List.filter (forallb Uni.ishex) (Uni.split_ws text)))).

(** The substring after the final dot of a name, when it has a dot. *)
Fixpoint after_final_dot (s : string) : option string :=
  match s with
  | EmptyString => None
  | String c s' =>
      match after_final_dot s' with
      | Some e => Some e
      | None => if Ascii.eqb c "." then Some s' else None
      end
  end.

(** ** Notions used in the statements *)

(** The first character of a text is whitespace, or there is none. *)
Definition at_gap (s : list N) : bool :=
  match s with
  | [] => true
  | d :: _ => Uni.isspace d
  end.

(** A character put in front of the first token of a list. *)
Definition cons_head (c : N) (l : list (list N)) : list (list N) :=
  match l with
  | t :: ts => (c :: t) :: ts
  | [] => [[c]]
  end.

(** A text without whitespace. *)
Definition no_whitespace (s : list N) : bool :=
  forallb (fun c => negb (Uni.isspace c)) s.

Definition nonempty (s : list N) : bool :=
  match s with
  | [] => false
  | _ :: _ => true
  end.

(** A text in which every run of whitespace between two tokens has a
    space character: what lies between two space characters, or between
    one and an end of the text, is at most one token, with whitespace
    before and after it only.  A line break or a tab next to a space is
    of this kind, a line break or a tab alone between two tokens is
    not. *)
Definition spaced (s : list N) : bool :=
  forallb (fun piece => no_whitespace (Uni.strip piece)) (Uni.split 32 s).

Definition lines_of (msg : errmsg) : list string :=
  match msg with
  | Lines l => l
  | Line s => [s]
  end.

(** The report only grows: the lines of a path stay, in their order,
    and new lines come after them. *)
Definition extends (e e' : gmap string (list string)) : Prop :=
  forall p msgs, e !! p = Some msgs -> exists more, e' !! p = Some (msgs ++ more).

Definition grows (st st' : locals) : Prop := extends (errors st) (errors st').

(** Errors are only added and the counter only goes up. *)
Definition advances (st st' : locals) : Prop :=
  grows st st' /\ (valid_checksums_found st <= valid_checksums_found st')%Z.

(** The side file of algorithm [m] declares the digest of the
    artefact: both can be read, and the digest that the text of the side
    file declares is the digest computed from the artefact. *)
Definition declares_digest (hashlib : string -> option digester)
    (decode : string -> option (list N)) (w : world) (filepath m : string) : Prop :=
  exists text calculated,
    read_text decode w (filepath +:+ "." +:+ m) = Ok text
    /\ digest hashlib w filepath m = Ok calculated
    /\ checksum_on_disk text = calculated.

(** The artefact is accounted for: a checksum was counted as valid, the
    side file of a configured algorithm declaring the digest of the
    artefact, or the report says under its path that none was. *)
Definition accounted (hashlib : string -> option digester)
    (decode : string -> option (list N)) (CFG : config) (w : world)
    (filename filepath : string) (st : locals) : Prop :=
  ((1 <= valid_checksums_found st)%Z
   /\ exists m, m ∈ strong_checksums CFG ++ weak_checksums CFG
        /\ declares_digest hashlib decode w filepath m)
  \/ exists msgs, errors st !! filepath = Some msgs
       /\ (msg_no_checksum filename ∈ msgs \/ msg_no_strong_checksum filename ∈ msgs).

(** The loop variable [method], when it is bound, is one of the
    configured algorithms. *)
Definition method_configured (CFG : config) (st : locals) : Prop :=
  forall m, method st = Some m -> m ∈ strong_checksums CFG ++ weak_checksums CFG.

(** The counter counts side files that declare the digest of the
    artefact: when it is not zero, there is one. *)
Definition counted (hashlib : string -> option digester)
    (decode : string -> option (list N)) (CFG : config) (w : world)
    (filepath : string) (st : locals) : Prop :=
  (1 <= valid_checksums_found st)%Z ->
  exists m, m ∈ strong_checksums CFG ++ weak_checksums CFG
       /\ declares_digest hashlib decode w filepath m.

(** A step adds the line [line] and nothing else: the line comes last
    under [filepath], after the lines that were there, the other
    entries of the report are as they were, and so is the counter. *)
Definition adds_line (filepath line : string) (st st' : locals) : Prop :=
  errors st' !! filepath = Some (default [] (errors st !! filepath) ++ [line])
  /\ (forall p, p <> filepath -> errors st' !! p = errors st !! p)
  /\ valid_checksums_found st' = valid_checksums_found st.



(** The loop variables [method] and [chkfile] are bound, to one of
    [methods] and to its side file. *)
Definition bound (methods : list string) (filepath : string) (st : locals) : Prop :=
  exists m, m ∈ methods /\ method st = Some m
            /\ chkfile st = Some (filepath +:+ "." +:+ m).

(** A side file that [verify_checksum] can work on: the algorithm is
    one of fixed length that [hashlib] has, and what is at the path of
    the side file, if anything, is a file that the codec can decode. *)
Definition checkable (hashlib : string -> option digester)
    (decode : string -> option (list N)) (w : world) (filepath m : string) : Prop :=
  (exists h, hashlib m = Some (Fixed h))
  /\ (nodes w !! (filepath +:+ "." +:+ m) = None
      \/ exists content t text,
           nodes w !! (filepath +:+ "." +:+ m) = Some (File content t)
           /\ decode content = Some text).

(** A key ring holds the finger print [f]. *)
Definition holds (f : string) (keyring : list key) : Prop :=
  f ∈ map fingerprint keyring.

(** No finger print is lost. *)
Definition keeps (keyring keyring' : list key) : Prop :=
  forall f, holds f keyring -> holds f keyring'.

(** The line feed. *)
Definition LF : string := String "010" EmptyString.

(** ** A small distribution tree to run the checker on *)

Module Fixture.

(** A stand-in for [hashlib]: the four algorithms of the configuration,
    each an injective function of the content. *)
Definition hashlib (m : string) : option digester :=
  if bool_decide (m ∈ ["md5"; "sha1"; "sha256"; "sha512"])
  then Some (Fixed (fun content => m +:+ content))
  else if bool_decide (m ∈ ["shake_128"; "shake_256"]) then Some NeedsLength
  else None.

(** Text files are read as UTF-8. *)
Definition decode : string -> option (list N) := Uni.utf8_decode.

Definition key_a : key :=
  {| fingerprint := "AAAA"; expires := Py.PStr "1600000000";
     uids := ["Alice <alice@example.org>"] |}.

(** A second key, with a later expiry. *)
Definition key_z : key :=
  {| fingerprint := "0000"; expires := Py.PStr "1900000000";
     uids := ["Zoe <zoe@example.org>"] |}.

(** A stand-in for key material: the text names the keys it holds. *)
Definition gpg_parse (material : string) : list key :=
  if String.eqb material "KEY A" then [key_a]
  else if String.eqb material "KEY Z" then [key_z]
  else if String.eqb material "KEY A, KEY Z" then [key_a; key_z]
  else [].

(** A stand-in for signature checking: the signature text names the
    signing key and the time; a signature is good when its key is in
    the key ring and has not expired. *)
Definition gpg_verify (keyring : list key) (asc : string) (data : res string)
    : verify :=
  if String.eqb asc "SIG A 1500000000" then
    {| valid := bool_decide ("AAAA" ∈ map fingerprint keyring);
       vfingerprint := Some "AAAA"; sig_timestamp := Py.PStr "1500000000";
       status := Some (if bool_decide ("AAAA" ∈ map fingerprint keyring)
                       then "signature valid" else "no public key") |}
  else if String.eqb asc "SIG A 1700000000" then
    {| valid := false; vfingerprint := Some "AAAA";
       sig_timestamp := Py.PStr "1700000000";
       status := Some "signature good but key expired" |}
  else
    {| valid := false; vfingerprint := None; sig_timestamp := Py.PNone;
       status := Some "signature bad" |}.

Definition cfg (cutoff : option Q) : config :=
  {| dist_dir := "/dist"; gpg_homedir := "/gpg";
     known_extensions := ["zip"; "gz"];
     strong_checksums := ["sha256"; "sha512"];
     weak_checksums := ["md5"; "sha1"];
     strong_checksum_deadline := cutoff |}.

(** The tree of project [p]: the artefact [a.zip], with the side files
    given. *)
Definition tree (mtime : Q) (side : list (string * string)) : world :=
  {| nodes :=
       list_to_map
         ([("/dist/p", Dir mtime); ("/dist/p/a.zip", File "payload" mtime)]
          ++ map (fun e => ("/dist/p/a.zip." +:+ fst e, File (snd e) mtime)) side);
     os_walk := fun p =>
       if String.eqb p "/dist/p"
       then [("/dist/p", "a.zip" :: map (fun e => "a.zip." +:+ fst e) side)]
       else [] |}.

(** The tree of project [p] with a signed artefact and, when
    [material] is given, a KEYS file. *)
Definition keys_tree (material : option string) : world :=
  let keys := match material with
              | Some m => [("KEYS", m)]
              | None => []
              end in
  {| nodes :=
       list_to_map
         ([("/dist/p", Dir 10); ("/dist/p/a.zip", File "payload" 10);
           ("/dist/p/a.zip.asc", File "SIG A 1500000000" 10);
           ("/dist/p/a.zip.sha256", File (Py.hexlify "sha256payload") 10)]
          ++ map (fun e => ("/dist/p/" +:+ fst e, File (snd e) 10)) keys);
     os_walk := fun p =>
       if String.eqb p "/dist/p"
       then [("/dist/p", map fst keys ++ ["a.zip"; "a.zip.asc"; "a.zip.sha256"])]
       else [] |}.

Definition md5_of_payload : string := Py.hexlify "md5payload".
Definition sha1_of_payload : string := Py.hexlify "sha1payload".
Definition sha256_of_payload : string := Py.hexlify "sha256payload".

End Fixture.


(** ** The rest of the program: notification, project selection *)

(** What [alert_project] hands to [asfpy.messaging.mail]. *)
Record mail := {
  sender : string;
  subject : string;
  recipients : list string;
  message : string;
}.

(** What [alert_project] does: nothing, a mail, or a text on the
    standard output. *)
Inductive alert :=
  | Silent
  | Sent (m : mail)
  | Printed (text : string).

(** The local variables of [alert_project] when the template is
    formatted with them.  The loop variables are those of the last
    round, [errorline] being unbound when no file has an error line. *)
Record alert_locals := {
  al_project : string;
  al_errors : list (string * list string);
  al_project_list : string;
  al_recipients : list string;
  al_extra_recips : option (list string);
  al_errormsg : string;
  al_filepath : option string;
  al_errorlines : option (list string);
  al_errorline : option string;
}.

(** The lines 53 and 54: one bullet for each error line. *)
Definition bullets (errorlines : list string) : string :=
  fold_left (fun msg errorline => msg +:+ " - " +:+ errorline +:+ LF)
    errorlines EmptyString.

(** The lines 52 to 55 for one file. *)
Definition error_block (entry : string * list string) : string :=
  "Errors were found while verifying " +:+ fst entry +:+ ":" +:+ LF
  +:+ bullets (snd entry) +:+ LF.

(** The lines 50 to 55.  The report is a dictionary, which Python goes
    through in the order in which its keys were added: it is given
    here as the list of its items in that order. *)
Definition errormsg_of (errors : list (string * list string)) : string :=
  fold_left (fun msg entry => msg +:+ error_block entry) errors EmptyString.

Section Notification.

(** The committees of the Whimsy committee information, each with its
    [mail_list]. *)
Variable MAIL_MAP : gmap string string.

(** [CFG.get("extra_recipients")], when it is a list. *)
Variable extra_recips : option (list string).

(** [EMAIL_TEMPLATE.format( **locals())], the template being a file of
    the installation. *)
Variable format_template : alert_locals -> string.

(** The lines 42 to 44. *)
Definition project_list_of (project : string) : string :=
  match MAIL_MAP !! project with
  | Some mail_list => "private@" +:+ mail_list +:+ ".apache.org"
  | None => "private@" +:+ project +:+ ".apache.org"
  end.

(** The lines 46 to 49. *)
Definition recipients_of (project : string) : list string :=
  match extra_recips with
  | Some l => [project_list_of project] ++ l
  | None => [project_list_of project]
  end.

Definition alert_project (argv : list string) (project : string)
    (errors : list (string * list string)) : alert :=
  match errors with
  | [] => Silent
  | _ =>
      let text :=
        format_template
          {| al_project := project; al_errors := errors;
             al_project_list := project_list_of project;
             al_recipients := recipients_of project;
             al_extra_recips := extra_recips;
             al_errormsg := errormsg_of errors;
             al_filepath := fst <$> last errors;
             al_errorlines := snd <$> last errors;
             al_errorline := last (flat_map snd errors) |} in
      if negb (bool_decide ("--debug" ∈ argv)) then
        Sent {| sender := "ASF Infrastructure <root@apache.org>";
                subject := "Verification of download artefacts on dist.apache.org FAILED for "
                           +:+ project +:+ "!";
                recipients := recipients_of project;
                message := text |}
      else Printed text
  end.

End Notification.

(** The lines 192 to 200 of [main]: the projects to scan.  [listing] is
    [os.listdir] of the distribution directory. *)
Definition select_projects (w : world) (dist : string)
    (listing argv : list string) : list string :=
  let projects :=
    List.filter (fun x => isdir w (path_join dist x)) listing in
  let x_projects :=
    List.filter (fun arg => bool_decide (arg ∈ projects)) argv in
  match x_projects with
  | [] => projects
  | _ => x_projects
  end.

(** ** The test harness, [tests/test.py] *)

(** The global variables of the harness: the expected first error line
    of each file of each project, and the count of deviations. *)
Record harness := {
  RESULTS : gmap string (gmap string string);
  total_errors : nat;
}.

(** The body of the loop over the files of a report: lines 37 to 47.
    [results] is the dictionary of the project, which [pop] changes in
    place. *)
Definition intercept_file (entry : string * list string)
    (acc : gmap string string * nat) : res (gmap string string * nat) :=
  match snd entry with
  | [] => Raise IndexError
  | actual :: _ =>
      match fst acc !! fst entry with
      | None => Ok (fst acc, S (snd acc))
      | Some expected =>
          if negb (String.eqb expected actual)
          then Ok (delete (fst entry) (fst acc), S (snd acc))
          else Ok (delete (fst entry) (fst acc), snd acc)
      end
  end.

(** [alert_project_intercept]: lines 28 to 47. *)
Definition alert_project_intercept (project : string)
    (errors : list (string * list string)) (h : harness) : res harness :=
  match RESULTS h !! project with
  | None => Ok {| RESULTS := RESULTS h; total_errors := S (total_errors h) |}
  | Some results =>
      r ← for_each intercept_file errors (results, total_errors h);
      Ok {| RESULTS := <[project := fst r]> (RESULTS h);
            total_errors := snd r |}
  end.

(** The lines 56 to 60: every expectation that is left counts. *)
Definition unseen (h : harness) : nat :=
  map_fold (fun _ results n => n + size results) 0 (RESULTS h).

Definition final_total (h : harness) : nat := total_errors h + unseen h.

(** ** More notions used in the statements *)

(** What a step changes in the report is the entry of [filepath], and
    it leaves it with a line. *)
Definition touches (filepath : string) (st st' : locals) : Prop :=
  forall p msgs, errors st' !! p = Some msgs ->
    errors st !! p = Some msgs \/ (p = filepath /\ msgs <> []).

(** A file of a report deviates when its first error line is not the
    one expected for it, or none is expected. *)
Definition deviates (expected : gmap string string) (entry : string * list string)
    : bool :=
  negb (bool_decide (expected !! fst entry = head (snd entry))).

(** ** More of the small tree *)

Module Sample.

(** A key without expiry, as the tool chain lists it. *)
Definition key_b : key :=
  {| fingerprint := "BBBB"; expires := Py.PStr "";
     uids := ["Bob <bob@example.org>"] |}.

(** A stand-in for signature checking with signatures that are not
    valid: one that has expired, of the key AAAA and made before the
    expiry of the key, and one of the key BBBB. *)
Definition gpg_verify (keyring : list key) (asc : string) (data : res string)
    : verify :=
  if String.eqb asc "EXPSIG A 1500000000" then
    {| valid := false; vfingerprint := Some "AAAA";
       sig_timestamp := Py.PStr "1500000000";
       status := Some "signature expired" |}
  else if String.eqb asc "REVKEYSIG B 1500000000" then
    {| valid := false; vfingerprint := Some "BBBB";
       sig_timestamp := Py.PStr "1500000000";
       status := Some "signature good but key revoked" |}
  else Fixture.gpg_verify keyring asc data.

(** A configuration without any checksum algorithm. *)
Definition cfg_no_algorithm (cutoff : option Q) : config :=
  {| dist_dir := "/dist"; gpg_homedir := "/gpg";
     known_extensions := ["zip"; "gz"];
     strong_checksums := [];
     weak_checksums := [];
     strong_checksum_deadline := cutoff |}.

(** A tree that lists [a.zip], a link whose target is gone, and the
    file [b.zip]. *)
Definition dangling : world :=
  {| nodes :=
       list_to_map [("/dist/p", Dir 10); ("/dist/p/b.zip", File "payload" 10)];
     os_walk := fun p =>
       if String.eqb p "/dist/p" then [("/dist/p", ["a.zip"; "b.zip"])] else [] |}.

(** A report with two files, as a dictionary in the order of its keys. *)
Definition report : list (string * list string) :=
  [("/dist/p/a.zip", ["first of a"; "second of a"]);
   ("/dist/p/b.zip", ["first of b"])].

End Sample.

(** * Properties *)

(** ** Strings *)

Lemma split_nonempty sep s : Py.split sep s <> [].
Proof.
  destruct s as [|c s]; simpl; [discriminate|].
  destruct (Ascii.eqb c sep); [discriminate|].
  destruct (Py.split sep s); discriminate.
Qed.

Lemma split_without_sep sep s : Py.contains sep s = false -> Py.split sep s = [s].
Proof.
  induction s as [|c s IH]; simpl; [reflexivity|].
  destruct (Ascii.eqb c sep); [discriminate|].
  intros H. rewrite (IH H). reflexivity.
Qed.

Lemma split_with_sep sep s :
  Py.contains sep s = true -> exists t u us, Py.split sep s = t :: u :: us.
Proof.
  induction s as [|c s IH]; simpl; [discriminate|].
  destruct (Ascii.eqb c sep) eqn:E.
  - intros _. destruct (Py.split sep s) as [|u us] eqn:F.
    + destruct (split_nonempty _ _ F).
    + eauto.
  - intros H. destruct (IH H) as (t & u & us & ->). eauto.
Qed.

Lemma last_item_cons x y l : Py.last_item (x :: y :: l) = Py.last_item (y :: l).
Proof. reflexivity. Qed.

Lemma last_split_cons sep c s :
  Py.contains sep s = true ->
  Py.last_item (Py.split sep (String c s)) = Py.last_item (Py.split sep s).
Proof.
  intros H. destruct (split_with_sep _ _ H) as (t & u & us & E).
  simpl. rewrite E. destruct (Ascii.eqb c sep); reflexivity.
Qed.

Lemma after_final_dot_none s :
  after_final_dot s = None <-> Py.contains "." s = false.
Proof.
  induction s as [|c s IH]; simpl; [tauto|].
  destruct (after_final_dot s) as [e|].
  - split; [discriminate|]. destruct (Ascii.eqb c "."); [discriminate|].
    intros H. apply IH in H. discriminate.
  - destruct IH as [IH _]. specialize (IH eq_refl).
    destruct (Ascii.eqb c "."); [split; discriminate | tauto].
Qed.

Lemma after_final_dot_last s e :
  after_final_dot s = Some e -> Py.last_item (Py.split "." s) = e.
Proof.
  revert e. induction s as [|c s IH]; simpl; [discriminate|].
  intros e. destruct (after_final_dot s) as [e'|] eqn:F.
  - intros [= <-].
    assert (Py.contains "." s = true) as C.
    { destruct (Py.contains "." s) eqn:C; [reflexivity|].
      apply after_final_dot_none in C. congruence. }
    transitivity (Py.last_item (Py.split "." s)); [|apply IH; reflexivity].
    apply (last_split_cons "." c s C).
  - apply after_final_dot_none in F.
    destruct (Ascii.eqb c "."); [|discriminate].
    intros [= <-]. rewrite (split_without_sep _ _ F). reflexivity.
Qed.

Lemma after_final_dot_no_dot s e :
  after_final_dot s = Some e -> Py.contains "." e = false.
Proof.
  revert e. induction s as [|c s IH]; simpl; [discriminate|].
  intros e. destruct (after_final_dot s) as [e'|] eqn:F.
  - intros [= <-]. apply IH. reflexivity.
  - destruct (Ascii.eqb c "."); [|discriminate].
    intros [= <-]. apply after_final_dot_none, F.
Qed.

Lemma after_final_dot_suffix s e :
  after_final_dot s = Some e -> exists pre, s = pre +:+ "." +:+ e.
Proof.
  revert e. induction s as [|c s IH]; simpl; [discriminate|].
  intros e. destruct (after_final_dot s) as [e'|] eqn:F.
  - intros [= <-]. destruct (IH _ eq_refl) as [pre ->].
    exists (String c pre). reflexivity.
  - destruct (Ascii.eqb c ".") eqn:E; [|discriminate].
    intros [= <-]. apply Ascii.eqb_eq in E. subst c. exists "". reflexivity.
Qed.

Lemma after_final_dot_intro pre e :
  Py.contains "." e = false -> after_final_dot (pre +:+ "." +:+ e) = Some e.
Proof.
  intros H. apply after_final_dot_none in H.
  induction pre as [|c pre IH].
  - change (after_final_dot (String "." e) = Some e).
    cbn [after_final_dot]. rewrite H. reflexivity.
  - change (after_final_dot (String c (pre +:+ "." +:+ e)) = Some e).
    cbn [after_final_dot]. rewrite IH. reflexivity.
Qed.

Lemma extension_spec filename :
  extension filename = default "" (after_final_dot filename).
Proof.
  unfold extension. destruct (after_final_dot filename) as [e|] eqn:F; simpl.
  - assert (Py.contains "." filename = true) as ->.
    { destruct (Py.contains "." filename) eqn:C; [reflexivity|].
      apply after_final_dot_none in C. congruence. }
    apply after_final_dot_last, F.
  - apply after_final_dot_none in F. rewrite F. reflexivity.
Qed.

Lemma extension_no_dot filename : Py.contains "." (extension filename) = false.
Proof.
  rewrite extension_spec. destruct (after_final_dot filename) as [e|] eqn:F; simpl.
  - eapply after_final_dot_no_dot, F.
  - reflexivity.
Qed.

(** ** Selection of the files to verify *)

(** C10: a file is verified exactly when what follows its final dot is
    in the list of known extensions; a name without a dot has the empty
    extension; an entry of the list that itself contains a dot, such as
    [tar.gz], is the extension of no file name. *)
Theorem selected_by_final_extension (CFG : config) (filename : string) :
  (selected CFG filename = true
     <-> default "" (after_final_dot filename) ∈ known_extensions CFG)
  /\ (forall e, after_final_dot filename = Some e
        <-> (exists pre, filename = pre +:+ "." +:+ e) /\ Py.contains "." e = false)
  /\ (Py.contains "." filename = false ->
        extension filename = ""
        /\ (selected CFG filename = true <-> "" ∈ known_extensions CFG))
  /\ (forall entry, Py.contains "." entry = true -> extension filename <> entry).
Proof.
  split; [|split; [|split]].
  - unfold selected. rewrite bool_decide_eq_true, extension_spec. reflexivity.
  - intros e. split.
    + intros H. split; [eapply after_final_dot_suffix|eapply after_final_dot_no_dot]; exact H.
    + intros [[pre ->] H]. apply after_final_dot_intro, H.
  - intros H. assert (extension filename = "") as E.
    { unfold extension. rewrite H. reflexivity. }
    split; [exact E|]. unfold selected. rewrite bool_decide_eq_true, E. reflexivity.
  - intros entry H E. pose proof (extension_no_dot filename) as N.
    rewrite E in N. congruence.
Qed.

Example selected_examples :
  let c := Fixture.cfg None in
  selected c "a.zip" = true /\ selected c "a.tar.gz" = true
  /\ selected c "README" = false /\ selected c "a.zip.sha256" = false
  /\ extension "a.tar.gz" = "gz" /\ extension ".zip" = "zip"
  /\ extension "a." = "".
Proof. repeat split. Qed.

(** ** The declared digest: the code against the specification's wording *)

#[local] Arguments Py.isspace : simpl never.
#[local] Arguments Py.ishex : simpl never.
#[local] Arguments Uni.isspace : simpl never.
#[local] Arguments Uni.ishex : simpl never.

Lemma isspace_space : Uni.isspace 32 = true.
Proof. reflexivity. Qed.

Lemma rstrip_no_whitespace s : no_whitespace s = true -> Uni.rstrip s = s.
Proof.
  induction s as [|c s IH]; simpl; [reflexivity|].
  intros [Hc Hs]%andb_prop. rewrite (IH Hs).
  destruct s; [|reflexivity].
  destruct (Uni.isspace c); [discriminate|reflexivity].
Qed.

Lemma strip_no_whitespace s : no_whitespace s = true -> Uni.strip s = s.
Proof.
  intros H. unfold Uni.strip.
  assert (Uni.lstrip s = s) as ->; [|apply rstrip_no_whitespace, H].
  destruct s as [|c s]; simpl in *; [reflexivity|].
  apply andb_prop in H as [Hc _].
  destruct (Uni.isspace c); [discriminate|reflexivity].
Qed.

Lemma split_ws_lstrip s : Uni.split_ws (Uni.lstrip s) = Uni.split_ws s.
Proof.
  induction s as [|c s IH]; [reflexivity|].
  cbn [Uni.lstrip]. destruct (Uni.isspace c) eqn:Sc; [|reflexivity].
  rewrite IH. cbn [Uni.split_ws]. rewrite Sc. reflexivity.
Qed.

Lemma rstrip_head c s d t : Uni.rstrip (c :: s) = d :: t -> c = d.
Proof.
  cbn [Uni.rstrip]. destruct (Uni.rstrip s).
  - destruct (Uni.isspace c); [discriminate|]. intros [= -> _]. reflexivity.
  - intros [= -> _]. reflexivity.
Qed.

Lemma split_ws_rstrip s : Uni.split_ws (Uni.rstrip s) = Uni.split_ws s.
Proof.
  induction s as [|c s IH]; [reflexivity|].
  cbn [Uni.rstrip]. destruct (Uni.rstrip s) as [|d t] eqn:R.
  - cbn [Uni.split_ws] in IH.
    assert (Uni.split_ws (c :: s) = if Uni.isspace c then [] else [[c]]) as ->.
    { cbn [Uni.split_ws]. rewrite <- IH.
      destruct (Uni.isspace c); [reflexivity|].
      destruct s as [|e s]; [reflexivity|].
      destruct (Uni.isspace e); reflexivity. }
    destruct (Uni.isspace c) eqn:Sc; [reflexivity|].
    cbn [Uni.split_ws]. rewrite Sc. reflexivity.
  - destruct s as [|e s]; [discriminate|].
    pose proof (rstrip_head _ _ _ _ R) as ->.
    remember (d :: t) as s1. remember (d :: s) as s2.
    cbn [Uni.split_ws]. subst s1 s2.
    destruct (Uni.isspace c); [exact IH|].
    rewrite IH. reflexivity.
Qed.

Lemma split_ws_strip s : Uni.split_ws (Uni.strip s) = Uni.split_ws s.
Proof. unfold Uni.strip. rewrite split_ws_rstrip. apply split_ws_lstrip. Qed.

Lemma split_ws_word c s :
  Uni.isspace c = false ->
  Uni.split_ws (c :: s)
  = if at_gap s then [c] :: Uni.split_ws s else cons_head c (Uni.split_ws s).
Proof.
  intros Hc. cbn [Uni.split_ws]. rewrite Hc.
  destruct s as [|d s]; [reflexivity|].
  cbn [at_gap]. destruct (Uni.isspace d); reflexivity.
Qed.

Lemma split_ws_starts s : at_gap s = false -> Uni.split_ws s <> [].
Proof.
  destruct s as [|d s]; [discriminate|]. cbn [at_gap]. intros Hd.
  rewrite (split_ws_word _ _ Hd).
  destruct (at_gap s); [discriminate|].
  destruct (Uni.split_ws s); discriminate.
Qed.

Lemma usplit_nonempty sep s : Uni.split sep s <> [].
Proof.
  destruct s as [|c s]; simpl; [discriminate|].
  destruct (c =? sep)%N; [discriminate|].
  destruct (Uni.split sep s); discriminate.
Qed.

Lemma usplit_head s t ts : Uni.split 32 s = t :: ts -> at_gap s = at_gap t.
Proof.
  destruct s as [|e s]; cbn [Uni.split].
  - intros [= <- _]. reflexivity.
  - destruct (N.eqb_spec e 32) as [->|Ne].
    + intros [= <- _]. reflexivity.
    + destruct (Uni.split 32 s); intros [= <- _]; reflexivity.
Qed.

(** Splitting on whitespace is splitting at the space characters, and
    then splitting each piece on whitespace. *)
Lemma split_ws_pieces s :
  Uni.split_ws s = concat (map Uni.split_ws (Uni.split 32 s)).
Proof.
  induction s as [|c s IH]; [reflexivity|].
  cbn [Uni.split]. destruct (N.eqb_spec c 32) as [->|Ne].
  - cbn [map concat]. rewrite <- IH. reflexivity.
  - destruct (Uni.split 32 s) as [|t ts] eqn:E; [destruct (usplit_nonempty _ _ E)|].
    pose proof (usplit_head _ _ _ E) as G.
    cbn [map concat] in *.
    destruct (Uni.isspace c) eqn:Sc.
    + assert (forall x, Uni.split_ws (c :: x) = Uni.split_ws x) as W
        by (intros x; cbn [Uni.split_ws]; rewrite Sc; reflexivity).
      rewrite !W. exact IH.
    + rewrite !(split_ws_word _ _ Sc), G, IH.
      destruct (at_gap t) eqn:Gt; [reflexivity|].
      pose proof (split_ws_starts _ Gt) as Hne.
      destruct (Uni.split_ws t); [congruence|reflexivity].
Qed.

Lemma split_ws_token p :
  no_whitespace p = true -> Uni.split_ws p = if nonempty p then [p] else [].
Proof.
  induction p as [|c p IH]; [reflexivity|].
  cbn [no_whitespace forallb]. intros [Hc Hp]%andb_prop.
  apply negb_true_iff in Hc. rewrite (split_ws_word _ _ Hc), (IH Hp).
  destruct p as [|d p]; [reflexivity|].
  cbn [no_whitespace forallb] in Hp. apply andb_prop in Hp as [Hd _].
  apply negb_true_iff in Hd. cbn [at_gap nonempty cons_head]. rewrite Hd.
  reflexivity.
Qed.

(** In a text whose gaps all have a space, the tokens are the pieces
    between the spaces, stripped, the empty ones left out. *)
Lemma split_ws_spaced s :
  spaced s = true ->
  Uni.split_ws s = List.filter nonempty (map Uni.strip (Uni.split 32 s)).
Proof.
  intros H. rewrite split_ws_pieces. unfold spaced in H.
  induction (Uni.split 32 s) as [|p l IH]; [reflexivity|].
  cbn [forallb] in H. apply andb_prop in H as [Hp Hl].
  cbn [map concat List.filter]. rewrite (IH Hl).
  rewrite <- (split_ws_strip p), (split_ws_token _ Hp).
  destruct (nonempty (Uni.strip p)); reflexivity.
Qed.

Lemma filter_map_commute {A B : Type} (f : A -> B) (p : B -> bool) (g : B -> string) l :
  map (fun x => g (f x)) (List.filter (fun x => p (f x)) l)
  = map g (List.filter p (map f l)).
Proof.
  induction l as [|x l IH]; [reflexivity|].
  cbn [map List.filter]. destruct (p (f x)); cbn [map]; rewrite IH; reflexivity.
Qed.

Lemma join_filter_nonempty p l :
  Py.join (map Uni.bytes (List.filter p (List.filter nonempty l)))
  = Py.join (map Uni.bytes (List.filter p l)).
Proof.
  induction l as [|x l IH]; [reflexivity|].
  destruct x as [|c x]; cbn [List.filter nonempty].
  - destruct (p []); [|exact IH]. simpl. exact IH.
  - destruct (p (c :: x)); simpl; rewrite IH; reflexivity.
Qed.

(** Where every gap of the text has a space, the digest the code reads
    is the one the specification describes. *)
Lemma checksum_on_disk_spec text :
  spaced (Uni.strip text) = true ->
  checksum_on_disk text = spec_expected_digest text.
Proof.
  intros H. unfold checksum_on_disk, spec_expected_digest.
  rewrite (filter_map_commute Uni.strip (forallb Uni.ishex) Uni.bytes).
  rewrite <- (split_ws_strip text), (split_ws_spaced _ H).
  rewrite join_filter_nonempty. reflexivity.
Qed.

(** A piece that the code keeps and that is not empty is one of the
    tokens of the text. *)
Lemma kept_piece_is_token s p :
  p ∈ Uni.split 32 s ->
  forallb Uni.ishex (Uni.strip p) = true ->
  nonempty (Uni.strip p) = true ->
  Uni.strip p ∈ Uni.split_ws s.
Proof.
  intros Hin Hx Hne. rewrite split_ws_pieces.
  apply list_elem_of_In, in_concat. exists (Uni.split_ws p). split.
  - apply in_map, list_elem_of_In, Hin.
  - rewrite <- split_ws_strip, split_ws_token, Hne; [left; reflexivity|].
    clear Hne Hin. induction (Uni.strip p) as [|c q IH]; [reflexivity|].
    cbn [forallb] in Hx. apply andb_prop in Hx as [Hc Hq].
    change (negb (Uni.isspace c) && no_whitespace q = true).
    rewrite (IH Hq), andb_true_r.
    revert Hc. unfold Uni.ishex, Uni.isspace. intros Hc.
    apply negb_true_iff. apply not_true_is_false. intros Hs.
    repeat (apply orb_prop in Hc as [Hc|Hc]); apply andb_prop in Hc as [H1 H2];
      apply N.leb_le in H1, H2;
      repeat (apply orb_prop in Hs as [Hs|Hs]);
      try (apply andb_prop in Hs as [H3 H4]; apply N.leb_le in H3, H4; lia);
      try (apply N.eqb_eq in Hs; lia).
Qed.

(** Without a token of hexadecimal digits, the declared digest is
    empty. *)
Lemma checksum_on_disk_empty text :
  (forall token, token ∈ Uni.split_ws text -> forallb Uni.ishex token = false) ->
  checksum_on_disk text = "".
Proof.
  intros H. unfold checksum_on_disk.
  assert (forall p, p ∈ Uni.split 32 (Uni.strip text) ->
            forallb Uni.ishex (Uni.strip p) = true -> Uni.strip p = []) as K.
  { intros p Hin Hx. destruct (nonempty (Uni.strip p)) eqn:E.
    - pose proof (kept_piece_is_token _ _ Hin Hx E) as T.
      rewrite split_ws_strip in T. rewrite (H _ T) in Hx. discriminate.
    - destruct (Uni.strip p); [reflexivity|discriminate]. }
  induction (Uni.split 32 (Uni.strip text)) as [|p l IH]; [reflexivity|].
  cbn [List.filter].
  assert (forall q, q ∈ l -> forallb Uni.ishex (Uni.strip q) = true -> Uni.strip q = [])
    as K' by (intros q Hq; apply K; right; exact Hq).
  destruct (forallb Uni.ishex (Uni.strip p)) eqn:Hx; [|exact (IH K')].
  cbn [map Py.join fold_right]. rewrite (K p (list_elem_of_here _ _) Hx).
  exact (IH K').
Qed.

(** ** [verify_checksum] *)

Lemma bind_ok {A B : Type} (r : res A) (k : A -> res B) (b : B) :
  r ≫= k = Ok b -> exists a, r = Ok a /\ k a = Ok b.
Proof. destruct r as [a|e]; [eauto|discriminate]. Qed.

Lemma lower_hex_char c :
  Py.lower_char (Py.hex_char (nat_of_ascii c / 16)) = Py.hex_char (nat_of_ascii c / 16)
  /\ Py.lower_char (Py.hex_char (nat_of_ascii c mod 16)) = Py.hex_char (nat_of_ascii c mod 16).
Proof. destruct c as [[] [] [] [] [] [] [] []]; split; reflexivity. Qed.

Lemma lower_hexlify s : Py.lower (Py.hexlify s) = Py.hexlify s.
Proof.
  induction s as [|c s IH]; [reflexivity|].
  cbn [Py.hexlify Py.lower]. destruct (lower_hex_char c) as [-> ->].
  rewrite IH. reflexivity.
Qed.

Section ChecksumProperties.

Variable hashlib : string -> option digester.
Variable decode : string -> option (list N).

Lemma digest_lower w filepath method calculated :
  digest hashlib w filepath method = Ok calculated ->
  Py.lower calculated = calculated.
Proof.
  unfold digest. destruct (hashlib method) as [[h|]|]; [| |discriminate].
  - destruct (read_file w filepath); [|discriminate].
    intros [= <-]. apply lower_hexlify.
  - destruct (read_file w filepath); discriminate.
Qed.

Lemma verify_checksum_eq w filepath method text calculated :
  read_text decode w (filepath +:+ "." +:+ method) = Ok text ->
  digest hashlib w filepath method = Ok calculated ->
  verify_checksum hashlib decode w filepath method =
    if negb (String.eqb (checksum_on_disk text) calculated) then
      Ok [ msg_mismatch (basename (filepath +:+ "." +:+ method));
           msg_calculated method (basename filepath) calculated;
           msg_on_disk (basename (filepath +:+ "." +:+ method)) (checksum_on_disk text) ]
    else Ok [].
Proof.
  intros Ht Hd. unfold verify_checksum. rewrite Ht. cbn [mbind res_bind].
  rewrite Hd. reflexivity.
Qed.

(** A checksum without error is a side file that declares the digest
    of the artefact. *)
Lemma verify_checksum_clean w filepath method :
  verify_checksum hashlib decode w filepath method = Ok [] ->
  declares_digest hashlib decode w filepath method.
Proof.
  unfold verify_checksum. intros (text & Ht & H)%bind_ok.
  apply bind_ok in H as (calculated & Hd & H).
  exists text, calculated. split; [exact Ht|]. split; [exact Hd|].
  destruct (String.eqb_spec (checksum_on_disk text) calculated) as [E|E];
    [exact E|discriminate].
Qed.

(** C4, as amended: when every run of whitespace between two tokens of
    the text of the side file has a space character, the declared
    digest is the one obtained by splitting the text on whitespace,
    keeping the tokens made of hexadecimal characters, concatenating
    and lower-casing them; no error is returned exactly when the
    computed digest equals it, case ignored. *)
Theorem matching_digest_no_errors w filepath method text calculated :
  read_text decode w (filepath +:+ "." +:+ method) = Ok text ->
  spaced (Uni.strip text) = true ->
  digest hashlib w filepath method = Ok calculated ->
  checksum_on_disk text = spec_expected_digest text
  /\ (Py.lower calculated = spec_expected_digest text <->
      verify_checksum hashlib decode w filepath method = Ok []).
Proof.
  intros Ht Hs Hd. pose proof (checksum_on_disk_spec _ Hs) as E.
  split; [exact E|].
  rewrite (verify_checksum_eq _ _ _ _ _ Ht Hd), E, (digest_lower _ _ _ _ Hd).
  destruct (String.eqb_spec (spec_expected_digest text) calculated) as [Q|Q]; cbn [negb].
  - split; [reflexivity|]. intros _. symmetry. exact Q.
  - split; [|discriminate]. intros Q'. destruct Q. symmetry. exact Q'.
Qed.

(** C5: when the declared digest differs from the computed one, exactly
    three lines are returned, in this order: the notice of the
    mismatch, the line that ends in the computed digest, the line that
    ends in the declared digest.  The declared digest is the one of
    the tokens of hexadecimal digits of the text where its gaps have a
    space, and it is empty, and so differs from any computed digest,
    when the text has no such token. *)
Theorem mismatch_reports_three_lines w filepath method text calculated :
  read_text decode w (filepath +:+ "." +:+ method) = Ok text ->
  digest hashlib w filepath method = Ok calculated ->
  (checksum_on_disk text <> calculated ->
   verify_checksum hashlib decode w filepath method =
     Ok [ "Checksum does not match checksum file "
            +:+ basename (filepath +:+ "." +:+ method) +:+ "!";
          "Calculated " +:+ method +:+ " checksum of " +:+ basename filepath
            +:+ " was: " +:+ calculated;
          "Checksum file " +:+ basename (filepath +:+ "." +:+ method)
            +:+ " said it should have been: " +:+ checksum_on_disk text ])
  /\ (spaced (Uni.strip text) = true ->
      checksum_on_disk text = spec_expected_digest text)
  /\ ((forall token, token ∈ Uni.split_ws text -> forallb Uni.ishex token = false) ->
      checksum_on_disk text = ""
      /\ (calculated <> "" ->
          verify_checksum hashlib decode w filepath method =
            Ok [ "Checksum does not match checksum file "
                   +:+ basename (filepath +:+ "." +:+ method) +:+ "!";
                 "Calculated " +:+ method +:+ " checksum of " +:+ basename filepath
                   +:+ " was: " +:+ calculated;
                 "Checksum file " +:+ basename (filepath +:+ "." +:+ method)
                   +:+ " said it should have been: " ])).
Proof.
  intros Ht Hd.
  assert (checksum_on_disk text <> calculated ->
          verify_checksum hashlib decode w filepath method =
            Ok [ msg_mismatch (basename (filepath +:+ "." +:+ method));
                 msg_calculated method (basename filepath) calculated;
                 msg_on_disk (basename (filepath +:+ "." +:+ method))
                   (checksum_on_disk text) ]) as M.
  { intros Hne. rewrite (verify_checksum_eq _ _ _ _ _ Ht Hd).
    apply String.eqb_neq in Hne. rewrite Hne. reflexivity. }
  split; [exact M|]. split; [apply checksum_on_disk_spec|].
  intros Hno. pose proof (checksum_on_disk_empty _ Hno) as E.
  split; [exact E|]. intros Hc. rewrite M by (rewrite E; congruence).
  rewrite E. reflexivity.
Qed.

End ChecksumProperties.

(** ** Loops and the report *)

Lemma for_each_app {A S : Type} (body : A -> S -> res S) l1 l2 s :
  for_each body (l1 ++ l2) s = for_each body l1 s ≫= for_each body l2.
Proof.
  revert s. induction l1 as [|a l1 IH]; intros s; [reflexivity|].
  cbn [app for_each]. destruct (body a s) as [s'|e]; [apply IH|reflexivity].
Qed.

Lemma for_each_map {A B S : Type} (body : B -> S -> res S) (f : A -> B) l s :
  for_each body (map f l) s = for_each (fun a => body (f a)) l s.
Proof.
  revert s. induction l as [|a l IH]; intros s; [reflexivity|].
  cbn [map for_each]. destruct (body (f a) s); [apply IH|reflexivity].
Qed.

Lemma for_each_filter {A S : Type} (body : A -> S -> res S) (p : A -> bool) l s :
  for_each (fun a s => if p a then body a s else Ok s) l s
  = for_each body (List.filter p l) s.
Proof.
  revert s. induction l as [|a l IH]; intros s; [reflexivity|].
  cbn [List.filter for_each]. destruct (p a); cbn [for_each mbind res_bind].
  - destruct (body a s); [apply IH|reflexivity].
  - apply IH.
Qed.

Lemma for_each_flat_map {A B S : Type} (body : B -> S -> res S) (g : A -> list B) l s :
  for_each body (flat_map g l) s = for_each (fun a => for_each body (g a)) l s.
Proof.
  revert s. induction l as [|a l IH]; intros s; [reflexivity|].
  cbn [flat_map for_each]. rewrite for_each_app.
  destruct (for_each body (g a) s); [apply IH|reflexivity].
Qed.

(** A loop keeps what each run of its body keeps. *)
Lemma for_each_invariant {A S : Type} (body : A -> S -> res S) (R : S -> S -> Prop) :
  (forall s, R s s) ->
  (forall s1 s2 s3, R s1 s2 -> R s2 s3 -> R s1 s3) ->
  (forall a s s', body a s = Ok s' -> R s s') ->
  forall l s s', for_each body l s = Ok s' -> R s s'.
Proof.
  intros Hrefl Htrans Hbody l. induction l as [|a l IH]; intros s s' H.
  - injection H as <-. apply Hrefl.
  - cbn [for_each] in H. apply bind_ok in H as (s1 & H1 & H2).
    eapply Htrans; [eapply Hbody, H1|eapply IH, H2].
Qed.

Lemma for_each_preserves {A S : Type} (body : A -> S -> res S) (P : S -> Prop) l :
  (forall a s s', a ∈ l -> P s -> body a s = Ok s' -> P s') ->
  forall s s', P s -> for_each body l s = Ok s' -> P s'.
Proof.
  induction l as [|a l IH]; intros Hbody s s' Hs H.
  - injection H as <-. exact Hs.
  - cbn [for_each] in H. apply bind_ok in H as (s1 & H1 & H2).
    eapply IH; [|eapply (Hbody a); [left|exact Hs|exact H1]|exact H2].
    intros b t t' Hb. apply Hbody. right. exact Hb.
Qed.

Lemma extends_refl e : extends e e.
Proof. intros p msgs H. exists []. rewrite app_nil_r. exact H. Qed.

Lemma extends_trans e1 e2 e3 : extends e1 e2 -> extends e2 e3 -> extends e1 e3.
Proof.
  intros H12 H23 p msgs H. destruct (H12 _ _ H) as [m1 H1].
  destruct (H23 _ _ H1) as [m2 H2]. exists (m1 ++ m2).
  rewrite app_assoc. exact H2.
Qed.

Lemma push_error_lookup e filepath msg :
  push_error e filepath msg !! filepath
  = Some (default [] (e !! filepath) ++ lines_of msg).
Proof. destruct msg; cbn [push_error lines_of]; apply lookup_insert_eq. Qed.

Lemma push_error_lookup_ne e filepath msg p :
  filepath <> p -> push_error e filepath msg !! p = e !! p.
Proof. intros H. destruct msg; cbn [push_error]; apply lookup_insert_ne, H. Qed.

Lemma push_error_extends e filepath msg : extends e (push_error e filepath msg).
Proof.
  intros p msgs H. destruct (decide (filepath = p)) as [->|Hne].
  - exists (lines_of msg). rewrite push_error_lookup, H. reflexivity.
  - exists []. rewrite push_error_lookup_ne, app_nil_r by exact Hne. exact H.
Qed.

Lemma grows_refl st : grows st st.
Proof. apply extends_refl. Qed.

Lemma grows_trans st1 st2 st3 : grows st1 st2 -> grows st2 st3 -> grows st1 st3.
Proof. apply extends_trans. Qed.

Lemma grows_push filepath msg st : grows st (push filepath msg st).
Proof. apply push_error_extends. Qed.

Lemma grows_record filepath file_errors st :
  grows st (record_checksum filepath file_errors st).
Proof. destruct file_errors; [apply extends_refl|apply grows_push]. Qed.

(** ** The checksum policy of [verify_files] *)

Section PolicyProperties.

Variable hashlib : string -> option digester.
Variable decode : string -> option (list N).
Variable gpg_verify : list key -> string -> res string -> verify.
Variable CFG : config.

Lemma advances_refl st : advances st st.
Proof. split; [apply grows_refl|lia]. Qed.

Lemma advances_trans st1 st2 st3 :
  advances st1 st2 -> advances st2 st3 -> advances st1 st3.
Proof. intros [G1 V1] [G2 V2]. split; [eapply grows_trans; eassumption|lia]. Qed.

Lemma advances_record filepath file_errors st :
  advances st (record_checksum filepath file_errors st).
Proof.
  split; [apply grows_record|].
  destruct file_errors; cbn; lia.
Qed.

Lemma check_strong_advances w filepath m st st' :
  check_strong hashlib decode w filepath m st = Ok st' -> advances st st'.
Proof.
  unfold check_strong.
  assert (advances st (set_chkfile (filepath +:+ "." +:+ m) (set_method m st)))
    as A0 by (split; [apply extends_refl|cbn; lia]).
  destruct (path_exists w _).
  - intros (fe & _ & [= <-])%bind_ok.
    eapply advances_trans; [exact A0|apply advances_record].
  - intros [= <-]. exact A0.
Qed.

Lemma strong_loop_advances w filepath l st st' :
  for_each (check_strong hashlib decode w filepath) l st = Ok st' -> advances st st'.
Proof.
  apply (for_each_invariant _ advances advances_refl advances_trans).
  intros a s s'. apply check_strong_advances.
Qed.

Lemma bind_weak_errors filepath l st :
  errors (fold_left (bind_weak filepath) l st) = errors st
  /\ valid_checksums_found (fold_left (bind_weak filepath) l st)
     = valid_checksums_found st.
Proof.
  revert st. induction l as [|m l IH]; intros st; [split; reflexivity|].
  cbn [fold_left]. destruct (IH (bind_weak filepath st m)) as [-> ->].
  split; reflexivity.
Qed.

Lemma accounted_push_no_checksum w filename filepath st :
  accounted hashlib decode CFG w filename filepath
    (push filepath (Line (msg_no_checksum filename)) st).
Proof.
  right. eexists. split; [apply push_error_lookup|].
  left. apply elem_of_app. right. apply list_elem_of_singleton. reflexivity.
Qed.

Lemma accounted_push_no_strong w filename filepath st :
  accounted hashlib decode CFG w filename filepath
    (push filepath (Line (msg_no_strong_checksum filename)) st).
Proof.
  right. eexists. split; [apply push_error_lookup|].
  right. apply elem_of_app. right. apply list_elem_of_singleton. reflexivity.
Qed.

(** The counter goes up only for a side file that declares the digest
    of the artefact. *)
Lemma record_counted w filepath m file_errors st :
  m ∈ strong_checksums CFG ++ weak_checksums CFG ->
  verify_checksum hashlib decode w filepath m = Ok file_errors ->
  counted hashlib decode CFG w filepath st ->
  counted hashlib decode CFG w filepath (record_checksum filepath file_errors st).
Proof.
  intros Hm Hv Hc. destruct file_errors as [|l ls].
  - intros _. exists m. split; [exact Hm|]. apply verify_checksum_clean, Hv.
  - exact Hc.
Qed.

Lemma method_record filepath file_errors st :
  method (record_checksum filepath file_errors st) = method st.
Proof. destruct file_errors; reflexivity. Qed.

Lemma check_strong_counted w filepath m st st' :
  m ∈ strong_checksums CFG ->
  method_configured CFG st /\ counted hashlib decode CFG w filepath st ->
  check_strong hashlib decode w filepath m st = Ok st' ->
  method_configured CFG st' /\ counted hashlib decode CFG w filepath st'.
Proof.
  intros Hm [_ Hc]. unfold check_strong.
  assert (m ∈ strong_checksums CFG ++ weak_checksums CFG) as Hin
    by (apply elem_of_app; left; exact Hm).
  assert (method_configured CFG (set_chkfile (filepath +:+ "." +:+ m) (set_method m st)))
    as M0 by (intros m' [= <-]; exact Hin).
  destruct (path_exists w _).
  - intros (fe & Hv & [= <-])%bind_ok. split.
    + intros m'. rewrite method_record. apply M0.
    + apply (record_counted _ _ m); [exact Hin|exact Hv|exact Hc].
  - intros [= <-]. split; [exact M0|exact Hc].
Qed.

Lemma bind_weak_method filepath l st :
  method_configured CFG st ->
  (forall m, m ∈ l -> m ∈ strong_checksums CFG ++ weak_checksums CFG) ->
  method_configured CFG (fold_left (bind_weak filepath) l st).
Proof.
  revert st. induction l as [|m l IH]; intros st Hst Hl; [exact Hst|].
  cbn [fold_left]. apply IH.
  - intros m' [= <-]. apply Hl. left.
  - intros m' Hm'. apply Hl. right. exact Hm'.
Qed.

Lemma weak_fallback_advances w filename filepath st st' :
  (0 <= valid_checksums_found st)%Z ->
  method_configured CFG st /\ counted hashlib decode CFG w filepath st ->
  weak_fallback hashlib decode CFG w filename filepath st = Ok st' ->
  advances st st' /\ method_configured CFG st'
  /\ accounted hashlib decode CFG w filename filepath st'.
Proof.
  intros Hv [Hm Hc]. unfold weak_fallback.
  set (st0 := fold_left (bind_weak filepath) (weak_checksums CFG) st).
  assert (advances st st0) as A0.
  { unfold advances, grows. subst st0.
    destruct (bind_weak_errors filepath (weak_checksums CFG) st) as [-> ->].
    split; [apply extends_refl|lia]. }
  assert (method_configured CFG st0) as M0.
  { apply bind_weak_method; [exact Hm|].
    intros m Hin. apply elem_of_app. right. exact Hin. }
  assert (counted hashlib decode CFG w filepath st0) as C0.
  { unfold counted. subst st0.
    destruct (bind_weak_errors filepath (weak_checksums CFG) st) as [_ ->].
    exact Hc. }
  intros (c & _ & H)%bind_ok.
  apply bind_ok in H as (st1 & H1 & H2).
  assert (advances st0 st1 /\ method_configured CFG st1
          /\ counted hashlib decode CFG w filepath st1) as (A1 & M1 & C1).
  { destruct (path_exists w c).
    - apply bind_ok in H1 as (m & Hmeth & H1).
      apply bind_ok in H1 as (fe & Hfe & [= <-]).
      split; [apply advances_record|]. split.
      + intros m'. rewrite method_record. apply M0.
      + apply (record_counted _ _ m); [|exact Hfe|exact C0].
        apply M0. destruct (method st0); [injection Hmeth as ->; reflexivity|discriminate].
    - injection H1 as <-. split; [apply advances_refl|]. split; assumption. }
  pose proof (advances_trans _ _ _ A0 A1) as A.
  destruct (Z.eqb_spec (valid_checksums_found st1) 0) as [E|E].
  - injection H2 as <-. split; [|split].
    + eapply advances_trans; [exact A|]. split; [apply grows_push|cbn; lia].
    + exact M1.
    + apply accounted_push_no_checksum.
  - injection H2 as <-. split; [exact A|]. split; [exact M1|].
    left. destruct A as [_ A].
    assert (1 <= valid_checksums_found st1)%Z as V by lia.
    split; [exact V|apply C1, V].
Qed.

Lemma verify_checksums_advances w filename filepath st st' :
  method_configured CFG st ->
  verify_checksums hashlib decode CFG w filename filepath st = Ok st' ->
  grows st st' /\ method_configured CFG st'
  /\ accounted hashlib decode CFG w filename filepath st'.
Proof.
  intros Hm. unfold verify_checksums. intros (st1 & H1 & H2)%bind_ok.
  assert (method_configured CFG st1 /\ counted hashlib decode CFG w filepath st1)
    as [M1 C1].
  { eapply (for_each_preserves _
               (fun s => method_configured CFG s
                         /\ counted hashlib decode CFG w filepath s));
      [| |exact H1].
    - intros m s s' Hin Hs. apply check_strong_counted; assumption.
    - split; [exact Hm|]. intros V. cbn in V. lia. }
  apply strong_loop_advances in H1 as [G1 V1]. cbn in V1.
  assert (grows st st1) as G by exact G1.
  destruct (Z.eqb_spec (valid_checksums_found st1) 0) as [E|E].
  - apply bind_ok in H2 as (mtime & _ & H2).
    destruct (Qle_bool mtime (deadline CFG)).
    + apply weak_fallback_advances in H2 as ([G2 _] & M2 & Acc); [|lia|split; assumption].
      split; [eapply grows_trans; eassumption|]. split; assumption.
    + injection H2 as <-. split; [|split].
      * eapply grows_trans; [exact G|apply grows_push].
      * exact M1.
      * apply accounted_push_no_strong.
  - injection H2 as <-. split; [exact G|]. split; [exact M1|].
    left. assert (1 <= valid_checksums_found st1)%Z as V by lia.
    split; [exact V|apply C1, V].
Qed.

Lemma verify_signature_grows w keychain known filename filepath st st' :
  verify_signature gpg_verify w keychain known filename filepath st = Ok st' ->
  grows st st' /\ valid_checksums_found st' = valid_checksums_found st
  /\ method st' = method st.
Proof.
  unfold verify_signature.
  destruct (path_exists w _);
    [|intros [= <-]; split; [apply grows_refl|split; reflexivity]].
  intros (asc & _ & H)%bind_ok.
  destruct (negb (valid _));
    [|injection H as <-; split; [apply grows_refl|split; reflexivity]].
  destruct (known_key known _) as [fp|].
  - apply bind_ok in H as (e & _ & H). apply bind_ok in H as (t & _ & H).
    destruct (e <? t)%Z.
    + apply bind_ok in H as (o & _ & [= <-]).
      split; [apply grows_push|split; reflexivity].
    + destruct (negb (bool_decide _)); injection H as <-;
        (split; [apply grows_push || apply grows_refl|split; reflexivity]).
  - injection H as <-. split; [apply grows_push|split; reflexivity].
Qed.

Lemma accounted_grows w filename filepath st st' :
  grows st st' -> valid_checksums_found st' = valid_checksums_found st ->
  accounted hashlib decode CFG w filename filepath st ->
  accounted hashlib decode CFG w filename filepath st'.
Proof.
  intros G V [[H D]|(msgs & H & Hin)]; [left; split; [lia|exact D]|].
  right. destruct (G _ _ H) as [more H']. exists (msgs ++ more).
  split; [exact H'|]. rewrite !elem_of_app. tauto.
Qed.

Lemma verify_artifact_advances w keychain known root filename st st' :
  method_configured CFG st ->
  verify_artifact hashlib decode gpg_verify CFG w keychain known root filename st = Ok st' ->
  grows st st' /\ method_configured CFG st'
  /\ accounted hashlib decode CFG w filename (path_join root filename) st'.
Proof.
  intros Hm. unfold verify_artifact. intros (st1 & H1 & H2)%bind_ok.
  apply verify_checksums_advances in H1 as (G1 & M1 & Acc); [|exact Hm].
  apply verify_signature_grows in H2 as (G2 & V & M).
  split; [eapply grows_trans; eassumption|]. split.
  - intros m. rewrite M. apply M1.
  - eapply accounted_grows; eassumption.
Qed.

Lemma verify_artifact_grows w keychain known root filename st st' :
  verify_artifact hashlib decode gpg_verify CFG w keychain known root filename st = Ok st' ->
  grows st st'.
Proof.
  unfold verify_artifact. intros (st1 & H1 & H2)%bind_ok.
  unfold verify_checksums in H1. apply bind_ok in H1 as (st2 & H1 & H3).
  apply strong_loop_advances in H1 as [G1 V1]. cbn in V1.
  assert (grows st st2) as G by exact G1.
  apply verify_signature_grows in H2 as (G2 & _).
  eapply grows_trans; [|exact G2]. eapply grows_trans; [exact G|].
  destruct (_ =? 0)%Z; [|injection H3 as <-; apply grows_refl].
  apply bind_ok in H3 as (mtime & _ & H3).
  destruct (Qle_bool _ _); [|injection H3 as <-; apply grows_push].
  unfold weak_fallback in H3.
  set (st0 := fold_left (bind_weak (path_join root filename)) (weak_checksums CFG) st2) in *.
  assert (grows st2 st0) as G0.
  { unfold grows. subst st0.
    destruct (bind_weak_errors (path_join root filename) (weak_checksums CFG) st2) as [-> _].
    apply extends_refl. }
  apply bind_ok in H3 as (c & _ & H3). apply bind_ok in H3 as (st3 & H3 & H4).
  assert (grows st0 st3) as G3.
  { destruct (path_exists w c).
    - apply bind_ok in H3 as (m & _ & H3).
      apply bind_ok in H3 as (fe & _ & [= <-]). apply grows_record.
    - injection H3 as <-. apply grows_refl. }
  eapply grows_trans; [exact G0|]. eapply grows_trans; [exact G3|].
  destruct (_ =? 0)%Z; injection H4 as <-; [apply grows_push|apply grows_refl].
Qed.

(** The two loops of [verify_files] run the body over the artefacts. *)
Lemma verify_walk_artifacts w project keychain :
  verify_walk hashlib decode gpg_verify CFG w project keychain
  = for_each
      (fun a => verify_artifact hashlib decode gpg_verify CFG w keychain
                  (known_fingerprints keychain) (fst a) (snd a))
      (artifacts CFG w project) init_locals.
Proof.
  unfold verify_walk, artifacts. rewrite for_each_flat_map.
  generalize init_locals. generalize (os_walk w (path_join (dist_dir CFG) project)).
  induction l as [|entry l IH]; intros st; [reflexivity|].
  cbn [for_each].
  assert (for_each
            (fun a => verify_artifact hashlib decode gpg_verify CFG w keychain
                        (known_fingerprints keychain) (fst a) (snd a))
            (map (pair (fst entry)) (List.filter (selected CFG) (Py.sorted (snd entry)))) st
          = verify_dir hashlib decode gpg_verify CFG w keychain
              (known_fingerprints keychain) entry st) as ->.
  { rewrite for_each_map, <- (for_each_filter _ (selected CFG)). reflexivity. }
  destruct (verify_dir _ _ _ _ _ _ _ _ _); [apply IH|reflexivity].
Qed.

(** C2, as amended: when a pass returns its report, every artefact it
    went through either had a checksum counted as valid when the loop
    was done with it, the side file of a configured algorithm declaring
    the digest computed from the artefact, or has one of the two lines
    about missing valid checksums under its path in the report. *)
Theorem every_artifact_accounted w project keychain report pre root filename post :
  artifacts CFG w project = pre ++ (root, filename) :: post ->
  verify_files hashlib decode gpg_verify CFG w project keychain = Ok report ->
  exists st,
    locals_after hashlib decode gpg_verify CFG w keychain (pre ++ [(root, filename)])
      = Ok st
    /\ (((1 <= valid_checksums_found st)%Z
         /\ exists m text calculated,
              m ∈ strong_checksums CFG ++ weak_checksums CFG
              /\ read_text decode w (path_join root filename +:+ "." +:+ m) = Ok text
              /\ digest hashlib w (path_join root filename) m = Ok calculated
              /\ checksum_on_disk text = calculated)
        \/ exists msgs, report !! path_join root filename = Some msgs
             /\ (msg_no_checksum filename ∈ msgs
                 \/ msg_no_strong_checksum filename ∈ msgs)).
Proof.
  intros Harts. unfold verify_files. intros (st_end & Hwalk & [= <-])%bind_ok.
  rewrite verify_walk_artifacts, Harts in Hwalk.
  change (pre ++ (root, filename) :: post)
    with (pre ++ [(root, filename)] ++ post) in Hwalk.
  rewrite app_assoc, for_each_app in Hwalk.
  apply bind_ok in Hwalk as (st & Hst & Hpost).
  exists st. split; [exact Hst|].
  unfold locals_after in Hst. rewrite for_each_app in Hst.
  apply bind_ok in Hst as (st0 & Hpre & Hbody).
  assert (method_configured CFG st0) as M0.
  { eapply (for_each_preserves _ (method_configured CFG)); [| |exact Hpre].
    - intros a s s' _ Hs H.
      apply verify_artifact_advances in H as (_ & M & _); assumption.
    - intros m; discriminate. }
  cbn [for_each fst snd] in Hbody.
  apply bind_ok in Hbody as (st1 & Hbody & [= <-]).
  apply verify_artifact_advances in Hbody
    as (_ & _ & [[V (m & Hm & text & calculated & D)]|(msgs & Hm & Hin)]); [| |exact M0].
  - left. split; [exact V|]. exists m, text, calculated. split; [exact Hm|exact D].
  - right.
    assert (grows st1 st_end) as G.
    { revert Hpost. apply (for_each_invariant _ grows grows_refl grows_trans).
      intros a s s'. apply verify_artifact_grows. }
    destruct (G _ _ Hm) as [more Hend]. exists (msgs ++ more).
    split; [exact Hend|]. rewrite !elem_of_app. tauto.
Qed.

(** The checksum policy raises no exception for an artefact that is a
    file, when at least one checksum algorithm is configured, [hashlib]
    has the configured algorithms with a fixed length, and every side
    file that exists is a file that the codec decodes. *)
Lemma verify_checksum_returns w filepath m content t bytes t' text h :
  nodes w !! filepath = Some (File content t) ->
  hashlib m = Some (Fixed h) ->
  nodes w !! (filepath +:+ "." +:+ m) = Some (File bytes t') ->
  decode bytes = Some text ->
  exists file_errors, verify_checksum hashlib decode w filepath m = Ok file_errors.
Proof.
  intros Ha Hh Hs Hd. unfold verify_checksum, digest, read_text, read_file.
  rewrite Hs. cbn [mbind res_bind]. rewrite Hd, Hh, Ha. cbn [mbind res_bind].
  destruct (negb _); eauto.
Qed.

Lemma bound_record methods filepath p file_errors st :
  bound methods filepath st ->
  bound methods filepath (record_checksum p file_errors st).
Proof. intros H. destruct file_errors; exact H. Qed.

Lemma check_strong_returns methods w filepath m st content t :
  nodes w !! filepath = Some (File content t) ->
  m ∈ methods ->
  checkable hashlib decode w filepath m ->
  exists st', check_strong hashlib decode w filepath m st = Ok st'
              /\ bound methods filepath st'.
Proof.
  intros Ha Hin [[h Hh] Hs]. unfold check_strong, path_exists.
  assert (bound methods filepath
            (set_chkfile (filepath +:+ "." +:+ m) (set_method m st))) as B
    by (exists m; repeat split; assumption).
  destruct Hs as [Hs|(bytes & t' & text & Hs & Hd)].
  - rewrite Hs, bool_decide_eq_false_2; [eauto|]. intros [x Hx]. discriminate.
  - rewrite Hs, bool_decide_eq_true_2 by eauto.
    destruct (verify_checksum_returns _ _ _ _ _ _ _ _ _ Ha Hh Hs Hd) as [fe ->].
    cbn [mbind res_bind]. eexists. split; [reflexivity|].
    apply bound_record, B.
Qed.

Lemma strong_loop_returns methods w filepath l st content t :
  nodes w !! filepath = Some (File content t) ->
  (forall m, m ∈ l -> m ∈ methods /\ checkable hashlib decode w filepath m) ->
  exists st', for_each (check_strong hashlib decode w filepath) l st = Ok st'
              /\ (l <> [] \/ bound methods filepath st -> bound methods filepath st').
Proof.
  intros Ha. revert st. induction l as [|m l IH]; intros st Hl.
  - exists st. split; [reflexivity|]. intros [H|H]; [congruence|exact H].
  - destruct (Hl m) as [Hin Hc]; [left|].
    destruct (check_strong_returns methods _ _ _ st _ _ Ha Hin Hc) as (st1 & H1 & B1).
    destruct (IH st1) as (st' & H' & B').
    { intros m' Hm'. apply Hl. right. exact Hm'. }
    exists st'. cbn [for_each]. rewrite H1. cbn [mbind res_bind].
    split; [exact H'|]. intros _. apply B'. right. exact B1.
Qed.

Lemma weak_loop_bound methods filepath l st :
  (forall m, m ∈ l -> m ∈ methods) ->
  l <> [] \/ bound methods filepath st ->
  bound methods filepath (fold_left (bind_weak filepath) l st).
Proof.
  revert st. induction l as [|m l IH]; intros st Hl H.
  - destruct H as [H|H]; [congruence|exact H].
  - cbn [fold_left]. apply IH.
    + intros m' Hm'. apply Hl. right. exact Hm'.
    + right. exists m. repeat split. apply Hl. left.
Qed.

Lemma verify_checksums_returns w filename filepath st content t :
  nodes w !! filepath = Some (File content t) ->
  strong_checksums CFG ++ weak_checksums CFG <> [] ->
  (forall m, m ∈ strong_checksums CFG ++ weak_checksums CFG ->
             checkable hashlib decode w filepath m) ->
  exists st', verify_checksums hashlib decode CFG w filename filepath st = Ok st'.
Proof.
  intros Ha Hne Hc.
  set (methods := strong_checksums CFG ++ weak_checksums CFG) in *.
  unfold verify_checksums.
  destruct (strong_loop_returns methods w filepath (strong_checksums CFG)
              (set_valid 0 st) _ _ Ha) as (st1 & -> & B1).
  { intros m Hm. assert (m ∈ methods) by (apply elem_of_app; left; exact Hm).
    split; [assumption|apply Hc; assumption]. }
  cbn [mbind res_bind]. destruct (_ =? 0)%Z; [|eauto].
  unfold stat_mtime. rewrite Ha. cbn [mbind res_bind].
  destruct (Qle_bool _ _); [|eauto].
  unfold weak_fallback.
  destruct (weak_loop_bound methods filepath (weak_checksums CFG) st1)
    as (m & Hm & Hmethod & Hchk).
  { intros m Hm. apply elem_of_app. right. exact Hm. }
  { destruct (weak_checksums CFG) as [|m l] eqn:Ew; [|left; discriminate].
    right. apply B1. left. intros Es. apply Hne. subst methods.
    rewrite Es. reflexivity. }
  rewrite Hchk. cbn [local mbind res_bind].
  destruct (Hc m Hm) as [[h Hh] Hs]. unfold path_exists.
  destruct Hs as [Hs|(bytes & t' & text & Hs & Hd)].
  - rewrite Hs, bool_decide_eq_false_2 by (intros [x Hx]; discriminate).
    cbn [mbind res_bind]. destruct (_ =? 0)%Z; eauto.
  - rewrite Hs, bool_decide_eq_true_2 by eauto.
    rewrite Hmethod. cbn [local mbind res_bind].
    destruct (verify_checksum_returns _ _ _ _ _ _ _ _ _ Ha Hh Hs Hd) as [fe ->].
    cbn [mbind res_bind]. destruct (_ =? 0)%Z; eauto.
Qed.

Lemma Qle_bool_false x y : (y < x)%Q -> Qle_bool x y = false.
Proof.
  intros H. destruct (Qle_bool x y) eqn:E; [|reflexivity].
  apply Qle_bool_iff in E. exfalso. exact (Qlt_not_le _ _ H E).
Qed.

(** C3, as amended: with the cutoff absent or 0, an artefact last
    modified after the epoch (a positive modification time) never takes
    the fallback to weak checksums: when none of its strong checksums is
    valid, what the loop over the strong checksums left is extended by
    the line about strong checksums, and by nothing else. *)
Theorem strong_mandatory_after_epoch w filename filepath st st1 n :
  strong_checksum_deadline CFG = None \/ strong_checksum_deadline CFG = Some 0%Q ->
  nodes w !! filepath = Some n ->
  (0 < mtime_of n)%Q ->
  for_each (check_strong hashlib decode w filepath) (strong_checksums CFG) (set_valid 0 st)
    = Ok st1 ->
  valid_checksums_found st1 = 0%Z ->
  verify_checksums hashlib decode CFG w filename filepath st
  = Ok (push filepath (Line (msg_no_strong_checksum filename)) st1).
Proof.
  intros Hcut Hn Hm Hloop Hv. unfold verify_checksums. rewrite Hloop.
  cbn [mbind res_bind]. rewrite Hv. cbn [Z.eqb].
  unfold stat_mtime. rewrite Hn. cbn [mbind res_bind].
  assert (deadline CFG = 0%Q) as ->.
  { unfold deadline. destruct Hcut as [-> | ->]; reflexivity. }
  rewrite (Qle_bool_false _ _ Hm). reflexivity.
Qed.

(** The other side of the cutoff: at or before it, and so with the
    cutoff absent or 0 for a modification time at or before the epoch,
    the fallback is taken. *)
Lemma fallback_at_or_before_cutoff w filename filepath st st1 n :
  nodes w !! filepath = Some n ->
  (mtime_of n <= deadline CFG)%Q ->
  for_each (check_strong hashlib decode w filepath) (strong_checksums CFG) (set_valid 0 st)
    = Ok st1 ->
  valid_checksums_found st1 = 0%Z ->
  verify_checksums hashlib decode CFG w filename filepath st
  = weak_fallback hashlib decode CFG w filename filepath st1.
Proof.
  intros Hn Hm Hloop Hv. unfold verify_checksums. rewrite Hloop.
  cbn [mbind res_bind]. rewrite Hv. cbn [Z.eqb].
  unfold stat_mtime. rewrite Hn. cbn [mbind res_bind].
  apply Qle_bool_iff in Hm. rewrite Hm. reflexivity.
Qed.

(** *** Signatures *)

(** C8: without a [.asc] file next to the artefact nothing is checked
    and nothing is reported about its signature: the step leaves the
    local variables as they are, and what is done for the artefact is
    what the checksum policy does. *)
Theorem no_signature_file_no_check w keychain known root filename st :
  nodes w !! (path_join root filename +:+ ".asc") = None ->
  verify_signature gpg_verify w keychain known filename (path_join root filename) st
    = Ok st
  /\ verify_artifact hashlib decode gpg_verify CFG w keychain known root filename st
     = verify_checksums hashlib decode CFG w filename (path_join root filename) st.
Proof.
  intros H.
  assert (forall s, verify_signature gpg_verify w keychain known filename
                      (path_join root filename) s = Ok s) as E.
  { intros s. unfold verify_signature, path_exists. rewrite H.
    rewrite bool_decide_eq_false_2; [reflexivity|].
    intros [x Hx]. discriminate. }
  split; [apply E|].
  unfold verify_artifact.
  destruct (verify_checksums _ _ _ _ _ _) as [s|e]; [apply E|reflexivity].
Qed.

Lemma verify_signature_invalid w keychain known filename filepath st asc :
  read_file w (filepath +:+ ".asc") = Ok asc ->
  valid (gpg_verify keychain asc (read_file w filepath)) = false ->
  verify_signature gpg_verify w keychain known filename filepath st
  = let verified := gpg_verify keychain asc (read_file w filepath) in
    match known_key known verified with
    | None =>
        Ok (push filepath
              (Line (msg_unknown_fingerprint filename (vfingerprint verified))) st)
    | Some fp =>
        fp_expires ← Py.int (expires fp);
        signed_at ← Py.int (sig_timestamp verified);
        if (fp_expires <? signed_at)%Z then
          fp_owner ← first_uid fp;
          Ok (push filepath
                (Line (msg_expired filename fp_owner (vfingerprint verified))) st)
        else if negb (bool_decide (status verified = Some "signature valid")) then
          Ok (push filepath (Line (msg_status filename (status verified))) st)
        else Ok st
    end.
Proof.
  intros Hasc Hv. unfold verify_signature, path_exists.
  assert (is_Some (nodes w !! (filepath +:+ ".asc"))) as Hex.
  { unfold read_file in Hasc. destruct (nodes w !! _); [eauto|discriminate]. }
  rewrite (bool_decide_eq_true_2 _ Hex), Hasc. cbn [mbind res_bind].
  rewrite Hv. reflexivity.
Qed.

Lemma push_adds_line filepath line st :
  adds_line filepath line st (push filepath (Line line) st).
Proof.
  split; [apply (push_error_lookup _ _ (Line line))|]. split; [|reflexivity].
  intros p Hp. apply push_error_lookup_ne. congruence.
Qed.

(** C7: for an artefact with a [.asc] file whose signature is reported
    as not valid: when the reported finger print is not in the finger
    print map, the step returns with exactly the line about the unknown
    finger print added, last under the path of the artefact, and the
    rest of the report as it was; when it is, and the expiry of its key
    is earlier than the time of the signature, with exactly the line
    about the expired key added in the same way, which names the first
    identity of the key and the finger print. *)
Theorem invalid_signature_errors w keychain known filename filepath st asc :
  read_file w (filepath +:+ ".asc") = Ok asc ->
  valid (gpg_verify keychain asc (read_file w filepath)) = false ->
  let verified := gpg_verify keychain asc (read_file w filepath) in
  (known_key known verified = None ->
     exists st',
       verify_signature gpg_verify w keychain known filename filepath st = Ok st'
       /\ errors st' !! filepath
          = Some (default [] (errors st !! filepath)
                  ++ ["The signature file " +:+ filename
                      +:+ " was signed with a fingerprint not found in the project's KEYS file: "
                      +:+ Py.fmt (vfingerprint verified)])
       /\ (forall p, p <> filepath -> errors st' !! p = errors st !! p)
       /\ valid_checksums_found st' = valid_checksums_found st)
  /\ (forall k e t owner others,
        known_key known verified = Some k ->
        Py.int (expires k) = Ok e ->
        Py.int (sig_timestamp verified) = Ok t ->
        (e < t)%Z ->
        uids k = owner :: others ->
        exists st',
          verify_signature gpg_verify w keychain known filename filepath st = Ok st'
          /\ errors st' !! filepath
             = Some (default [] (errors st !! filepath)
                     ++ ["Detached signature file " +:+ filename
                         +:+ ".asc was signed by " +:+ owner +:+ " ("
                         +:+ Py.fmt (vfingerprint verified)
                         +:+ ") but the key has expired!"])
          /\ (forall p, p <> filepath -> errors st' !! p = errors st !! p)
          /\ valid_checksums_found st' = valid_checksums_found st).
Proof.
  intros Hasc Hv verified. split.
  - intros Hk. eexists. split; [|apply push_adds_line].
    rewrite (verify_signature_invalid _ _ _ _ _ _ _ Hasc Hv).
    cbv zeta. fold verified. rewrite Hk. reflexivity.
  - intros k e t owner others Hk He Ht Hlt Hu.
    eexists. split; [|apply push_adds_line].
    rewrite (verify_signature_invalid _ _ _ _ _ _ _ Hasc Hv).
    cbv zeta. fold verified. rewrite Hk, He. cbn [mbind res_bind].
    rewrite Ht. cbn [mbind res_bind].
    apply Z.ltb_lt in Hlt. rewrite Hlt.
    unfold first_uid. rewrite Hu. reflexivity.
Qed.

Lemma msg_status_not_expired filename s owner fp :
  msg_status filename s <> msg_expired filename owner fp.
Proof.
  unfold msg_status, msg_expired. intros H.
  apply String.app_inj in H. apply String.app_inj in H. discriminate H.
Qed.



End PolicyProperties.

(** ** Key rings *)

Section KeyProperties.

Variable gpg_parse : string -> list key.
Variable CFG : config.

Lemma keeps_refl keyring : keeps keyring keyring.
Proof. intros f H. exact H. Qed.

Lemma keeps_trans k1 k2 k3 : keeps k1 k2 -> keeps k2 k3 -> keeps k1 k3.
Proof. intros H12 H23 f H. apply H23, H12, H. Qed.

Lemma import_key_fingerprints keyring k :
  map fingerprint (import_key keyring k)
  = if bool_decide (fingerprint k ∈ map fingerprint keyring)
    then map fingerprint keyring
    else map fingerprint keyring ++ [fingerprint k].
Proof.
  unfold import_key. destruct (bool_decide _).
  - rewrite map_map. apply map_ext. intros k0.
    destruct (String.eqb_spec (fingerprint k0) (fingerprint k)) as [E|E];
      [symmetry; exact E|reflexivity].
  - rewrite map_app. reflexivity.
Qed.

Lemma import_key_keeps keyring k : keeps keyring (import_key keyring k).
Proof.
  intros f H. unfold holds in *. rewrite import_key_fingerprints.
  destruct (bool_decide _); [exact H|]. apply elem_of_app. left. exact H.
Qed.

Lemma import_key_holds keyring k : holds (fingerprint k) (import_key keyring k).
Proof.
  unfold holds. rewrite import_key_fingerprints.
  destruct (bool_decide _) eqn:E.
  - apply bool_decide_eq_true in E. exact E.
  - apply elem_of_app. right. apply list_elem_of_singleton. reflexivity.
Qed.

Lemma fold_import_keeps l keyring : keeps keyring (fold_left import_key l keyring).
Proof.
  revert keyring. induction l as [|k l IH]; intros keyring; [apply keeps_refl|].
  cbn [fold_left]. eapply keeps_trans; [apply import_key_keeps|apply IH].
Qed.

Lemma fold_import_holds l keyring k :
  k ∈ l -> holds (fingerprint k) (fold_left import_key l keyring).
Proof.
  revert keyring. induction l as [|k0 l IH]; intros keyring H.
  - inversion H.
  - cbn [fold_left]. apply elem_of_cons in H as [->|H].
    + apply fold_import_keeps, import_key_holds.
    + apply IH, H.
Qed.

Lemma load_file_keeps w root filename keyring keyring' :
  load_file gpg_parse w root filename keyring = Ok keyring' -> keeps keyring keyring'.
Proof.
  unfold load_file. destruct (bool_decide _).
  - intros (material & _ & [= <-])%bind_ok. apply fold_import_keeps.
  - intros [= <-]. apply keeps_refl.
Qed.

Lemma load_dir_keeps w entry keyring keyring' :
  load_dir gpg_parse w entry keyring = Ok keyring' -> keeps keyring keyring'.
Proof.
  apply (for_each_invariant _ keeps keeps_refl keeps_trans).
  intros a s s'. apply load_file_keeps.
Qed.

(** What one run of a loop body establishes, and the later runs keep,
    holds when the loop ends. *)
Lemma for_each_elem {A S : Type} (body : A -> S -> res S) (R : S -> S -> Prop)
    (P : S -> Prop) (a : A) :
  (forall s, R s s) ->
  (forall s1 s2 s3, R s1 s2 -> R s2 s3 -> R s1 s3) ->
  (forall b s s', body b s = Ok s' -> R s s') ->
  (forall s s', R s s' -> P s -> P s') ->
  (forall s s', body a s = Ok s' -> P s') ->
  forall l s s', a ∈ l -> for_each body l s = Ok s' -> P s'.
Proof.
  intros Hrefl Htrans Hbody Hkeep Ha l.
  induction l as [|b l IH]; intros s s' Hin H; [inversion Hin|].
  cbn [for_each] in H. apply bind_ok in H as (s1 & H1 & H2).
  apply elem_of_cons in Hin as [<-|Hin].
  - eapply Hkeep; [|eapply Ha, H1].
    eapply (for_each_invariant body R Hrefl Htrans Hbody), H2.
  - eapply IH; eassumption.
Qed.

Lemma known_fingerprints_holds keychain f :
  is_Some (known_fingerprints keychain !! f) <-> holds f keychain.
Proof.
  unfold known_fingerprints, holds.
  assert (forall m : gmap string key,
            is_Some (fold_left (fun m k => <[fingerprint k := k]> m) keychain m !! f)
            <-> f ∈ map fingerprint keychain \/ is_Some (m !! f)) as G.
  { induction keychain as [|k l IH]; intros m; cbn [fold_left map].
    - rewrite elem_of_nil. tauto.
    - rewrite IH, elem_of_cons. destruct (decide (fingerprint k = f)) as [E|E].
      + rewrite E, lookup_insert_eq. split; [|eauto]. intros _. left. left. reflexivity.
      + rewrite lookup_insert_ne by exact E. split; [tauto|].
        intros [[?|?]|?]; [congruence|tauto|tauto]. }
  rewrite G, lookup_empty. split; [|tauto].
  intros [H|[x H]]; [exact H|discriminate].
Qed.

(** C9, as amended: the key ring of a pass is the one that the
    project's GnuPG home directory holds when the pass begins, with the
    KEYS and KEYS.txt files of the project's tree imported into it, and
    it is left in the home directory for the next pass.  So every key
    that was in the home directory before the pass, whatever file it
    came from, is in the finger print map of the pass, and so is every
    key of a KEYS file of the tree. *)
Theorem key_ring_persists w homes project homes' keychain :
  load_keys gpg_parse CFG w homes project = Ok (homes', keychain) ->
  homes' !! path_join (gpg_homedir CFG) project = Some keychain
  /\ (forall k,
        k ∈ default [] (homes !! path_join (gpg_homedir CFG) project) ->
        is_Some (known_fingerprints keychain !! fingerprint k))
  /\ (forall root files filename material k,
        (root, files) ∈ os_walk w (path_join (dist_dir CFG) project) ->
        filename ∈ files ->
        filename = "KEYS" \/ filename = "KEYS.txt" ->
        read_file w (path_join root filename) = Ok material ->
        k ∈ gpg_parse material ->
        is_Some (known_fingerprints keychain !! fingerprint k)).
Proof.
  unfold load_keys. destruct (negb _); [discriminate|].
  set (gpg_dir := path_join (gpg_homedir CFG) project).
  set (homes0 := if negb (bool_decide (is_Some (homes !! gpg_dir)))
                 then <[gpg_dir := []]> homes else homes).
  assert (default [] (homes0 !! gpg_dir) = default [] (homes !! gpg_dir)) as E0.
  { subst homes0. destruct (bool_decide _) eqn:B; cbn [negb]; [reflexivity|].
    apply bool_decide_eq_false in B. rewrite lookup_insert_eq.
    destruct (homes !! gpg_dir); [exfalso; apply B; eauto|reflexivity]. }
  rewrite E0. intros (ring & Hloop & [= <- <-])%bind_ok.
  split; [apply lookup_insert_eq|]. split.
  - intros k Hk. apply known_fingerprints_holds.
    assert (keeps (default [] (homes !! gpg_dir)) ring) as K.
    { revert Hloop. apply (for_each_invariant _ keeps keeps_refl keeps_trans).
      intros a s s'. apply load_dir_keeps. }
    apply K. unfold holds. apply list_elem_of_fmap. exists k. split; [reflexivity|exact Hk].
  - intros root files filename material k Hentry Hfile Hname Hread Hk.
    apply known_fingerprints_holds.
    revert Hloop.
    apply (for_each_elem (load_dir gpg_parse w) keeps (holds (fingerprint k))
             (root, files) keeps_refl keeps_trans); [| |  |exact Hentry].
    + intros b s s'. apply load_dir_keeps.
    + intros s s' K H. apply K, H.
    + intros s s'. unfold load_dir. cbn [fst snd].
      apply (for_each_elem (load_file gpg_parse w root) keeps (holds (fingerprint k))
               filename keeps_refl keeps_trans); [| | |exact Hfile].
      * intros b s0 s0'. apply load_file_keeps.
      * intros s0 s0' K H. apply K, H.
      * intros s0 s0'. unfold load_file.
        rewrite bool_decide_eq_true_2.
        2:{ destruct Hname as [-> | ->]; set_solver. }
        rewrite Hread. cbn [mbind res_bind]. intros [= <-].
        apply fold_import_holds, Hk.
Qed.

End KeyProperties.

(** * Runs of the checker on the small tree *)

(** C1: the weak checksums are [md5] and [sha1]; the artefact is older
    than the cutoff and has a correct [.md5] file and no other side
    file.  The [.md5] file alone verifies without error, and yet the
    pass reports that the artefact has no valid checksum file: after
    the loop over the weak checksums only the last one is looked at. *)
Theorem weak_checksum_before_last_ignored :
  let w := Fixture.tree 50 [("md5", Fixture.md5_of_payload)] in
  verify_checksum Fixture.hashlib Fixture.decode w "/dist/p/a.zip" "md5" = Ok []
  /\ verify_files Fixture.hashlib Fixture.decode Fixture.gpg_verify (Fixture.cfg (Some 100%Q)) w "p" []
     = Ok {[ "/dist/p/a.zip" :=
               ["No valid checksum files (.md5, .sha1, .sha256, .sha512) found for a.zip"] ]}.
Proof. split; vm_compute; reflexivity. Qed.

(** Whatever the weak checksums before the last one are, the loop over
    them leaves the last one in [method] and [chkfile], and this is all
    the fallback then looks at. *)
Lemma weak_loop_binds_last filepath ms m st :
  fold_left (bind_weak filepath) (ms ++ [m]) st
  = set_chkfile (filepath +:+ "." +:+ m) (set_method m st).
Proof.
  rewrite fold_left_app. cbn [fold_left]. unfold bind_weak at 1.
  destruct (bind_weak_errors filepath ms st) as [E V].
  unfold set_chkfile, set_method. cbn. rewrite E, V. reflexivity.
Qed.

(** C2, the claim as stated fails: the tree lists [a.zip], a link whose
    target is gone, and [b.zip], which has no side file.  The pass
    reads the modification time of [a.zip] and raises: it returns no
    report, and neither artefact ends it with a valid checksum or with
    an error under its path. *)
Lemma artifact_lost_with_the_pass :
  let w := Sample.dangling in
  artifacts (Fixture.cfg None) w "p" = [("/dist/p", "a.zip"); ("/dist/p", "b.zip")]
  /\ nodes w !! "/dist/p/a.zip" = None
  /\ verify_files Fixture.hashlib Fixture.decode Fixture.gpg_verify (Fixture.cfg None)
       w "p" []
     = Raise FileNotFoundError
  /\ forall report,
       verify_files Fixture.hashlib Fixture.decode Fixture.gpg_verify (Fixture.cfg None)
         w "p" []
       <> Ok report.
Proof.
  cbv zeta. split; [vm_compute; reflexivity|]. split; [vm_compute; reflexivity|].
  assert (verify_files Fixture.hashlib Fixture.decode Fixture.gpg_verify
            (Fixture.cfg None) Sample.dangling "p" []
          = Raise FileNotFoundError) as E by (vm_compute; reflexivity).
  split; [exact E|]. intros report H. rewrite E in H. discriminate H.
Qed.

(** C2 as amended at work: the artefact has a [.sha256] file with its
    digest, and the pass returns an empty report. *)
Lemma every_artifact_accounted_witness :
  let w := Fixture.tree 10 [("sha256", Fixture.sha256_of_payload)] in
  exists st,
    locals_after Fixture.hashlib Fixture.decode Fixture.gpg_verify (Fixture.cfg None)
      w [] ([] ++ [("/dist/p", "a.zip")]) = Ok st
    /\ (((1 <= valid_checksums_found st)%Z
         /\ exists m text calculated,
              m ∈ strong_checksums (Fixture.cfg None) ++ weak_checksums (Fixture.cfg None)
              /\ read_text Fixture.decode w (path_join "/dist/p" "a.zip" +:+ "." +:+ m)
                 = Ok text
              /\ digest Fixture.hashlib w (path_join "/dist/p" "a.zip") m = Ok calculated
              /\ checksum_on_disk text = calculated)
        \/ exists msgs,
             (∅ : gmap string (list string)) !! path_join "/dist/p" "a.zip" = Some msgs
             /\ (msg_no_checksum "a.zip" ∈ msgs
                 \/ msg_no_strong_checksum "a.zip" ∈ msgs)).
Proof.
  apply (every_artifact_accounted Fixture.hashlib Fixture.decode Fixture.gpg_verify
           (Fixture.cfg None) (Fixture.tree 10 [("sha256", Fixture.sha256_of_payload)])
           "p" [] ∅ [] "/dist/p" "a.zip" []).
  - vm_compute. reflexivity.
  - vm_compute. reflexivity.
Defined.

(** C3, the claim as stated fails: the cutoff is absent, the artefact
    carries the modification time 0 and has a correct [.sha1] file
    only.  The fallback is taken and accepts the weak checksum: the
    report is empty. *)
Lemma fallback_taken_without_cutoff :
  strong_checksum_deadline (Fixture.cfg None) = None
  /\ strong_checksums (Fixture.cfg None) = ["sha256"; "sha512"]
  /\ stat_mtime (Fixture.tree 0 [("sha1", Fixture.sha1_of_payload)]) "/dist/p/a.zip"
     = Ok 0%Q
  /\ verify_files Fixture.hashlib Fixture.decode Fixture.gpg_verify (Fixture.cfg None)
       (Fixture.tree 0 [("sha1", Fixture.sha1_of_payload)]) "p" []
     = Ok ∅.
Proof. repeat split; vm_compute; reflexivity. Qed.

(** C3 as amended at work: the same tree, last modified at time 10. *)
Lemma strong_mandatory_after_epoch_witness :
  verify_checksums Fixture.hashlib Fixture.decode (Fixture.cfg None)
    (Fixture.tree 10 [("sha1", Fixture.sha1_of_payload)])
    "a.zip" "/dist/p/a.zip" init_locals
  = Ok (push "/dist/p/a.zip" (Line (msg_no_strong_checksum "a.zip"))
          {| errors := ∅; valid_checksums_found := 0;
             method := Some "sha512";
             chkfile := Some "/dist/p/a.zip.sha512" |}).
Proof.
  apply (strong_mandatory_after_epoch Fixture.hashlib Fixture.decode (Fixture.cfg None)
           (Fixture.tree 10 [("sha1", Fixture.sha1_of_payload)])
           "a.zip" "/dist/p/a.zip" init_locals _ (File "payload" 10)).
  - left. reflexivity.
  - vm_compute. reflexivity.
  - vm_compute. reflexivity.
  - vm_compute. reflexivity.
  - reflexivity.
Defined.

(** C4, the claim as stated fails: the side file gives the digest on
    two lines.  Split on whitespace, its tokens make up the computed
    digest; the code splits at space characters only, finds no piece
    of hexadecimal characters, and returns the three lines. *)
Lemma digest_on_two_lines_rejected :
  let content := "7368613235367" +:+ LF +:+ "061796c6f6164" +:+ LF in
  let w := Fixture.tree 10 [("sha256", content)] in
  read_text Fixture.decode w "/dist/p/a.zip.sha256" = Ok (Uni.codes content)
  /\ digest Fixture.hashlib w "/dist/p/a.zip" "sha256"
     = Ok "7368613235367061796c6f6164"
  /\ spec_expected_digest (Uni.codes content) = "7368613235367061796c6f6164"
  /\ verify_checksum Fixture.hashlib Fixture.decode w "/dist/p/a.zip" "sha256"
     = Ok [ "Checksum does not match checksum file a.zip.sha256!";
            "Calculated sha256 checksum of a.zip was: 7368613235367061796c6f6164";
            "Checksum file a.zip.sha256 said it should have been: " ].
Proof. repeat split; vm_compute; reflexivity. Qed.

(** C4 as amended at work: the side file is in the layout of
    [gpg --print-md], the digest in groups of upper-case digits on two
    lines after the name of the artefact; the line break is next to
    spaces. *)
Lemma matching_digest_no_errors_witness :
  let content := "a.zip: 7368 6132 3536" +:+ LF +:+ "       7061 796C 6F61 64" +:+ LF in
  let w := Fixture.tree 10 [("sha256", content)] in
  checksum_on_disk (Uni.codes content) = "7368613235367061796c6f6164"
  /\ spec_expected_digest (Uni.codes content) = "7368613235367061796c6f6164"
  /\ verify_checksum Fixture.hashlib Fixture.decode w "/dist/p/a.zip" "sha256" = Ok [].
Proof.
  cbv zeta.
  destruct (matching_digest_no_errors Fixture.hashlib Fixture.decode
              (Fixture.tree 10
                 [("sha256",
                   "a.zip: 7368 6132 3536" +:+ LF +:+ "       7061 796C 6F61 64" +:+ LF)])
              "/dist/p/a.zip" "sha256"
              (Uni.codes
                 ("a.zip: 7368 6132 3536" +:+ LF +:+ "       7061 796C 6F61 64" +:+ LF))
              "7368613235367061796c6f6164") as [E [V _]].
  - vm_compute. reflexivity.
  - vm_compute. reflexivity.
  - vm_compute. reflexivity.
  - split; [|split].
    + vm_compute. reflexivity.
    + vm_compute. reflexivity.
    + apply V. vm_compute. reflexivity.
Defined.

(** C5 at work: the side file declares a digest that is not the one of
    the artefact. *)
Lemma mismatch_reports_three_lines_witness :
  verify_checksum Fixture.hashlib Fixture.decode
    (Fixture.tree 10 [("md5", "00FF  a.zip" +:+ LF)]) "/dist/p/a.zip" "md5"
  = Ok [ "Checksum does not match checksum file a.zip.md5!";
         "Calculated md5 checksum of a.zip was: 6d64357061796c6f6164";
         "Checksum file a.zip.md5 said it should have been: 00ff" ].
Proof.
  refine (proj1 (mismatch_reports_three_lines Fixture.hashlib Fixture.decode
                   (Fixture.tree 10 [("md5", "00FF  a.zip" +:+ LF)])
                   "/dist/p/a.zip" "md5"
                   (Uni.codes ("00FF  a.zip" +:+ LF)) "6d64357061796c6f6164" _ _) _).
  - vm_compute. reflexivity.
  - vm_compute. reflexivity.
  - vm_compute. discriminate.
Defined.

(** The degenerate case of C5: the side file names the artefact and
    gives no digest. *)
Example mismatch_without_digest :
  verify_checksum Fixture.hashlib Fixture.decode
    (Fixture.tree 10 [("md5", "a.zip")]) "/dist/p/a.zip" "md5"
  = Ok [ "Checksum does not match checksum file a.zip.md5!";
         "Calculated md5 checksum of a.zip was: 6d64357061796c6f6164";
         "Checksum file a.zip.md5 said it should have been: " ].
Proof. vm_compute. reflexivity. Qed.

(** Whitespace outside the ASCII range is whitespace: a no-break space
    after the digest is stripped, and one inside a piece keeps the
    piece out of the digest. *)
Example no_break_space_is_whitespace :
  Fixture.decode ("00ff" +:+ String "194" (String "160" "")) = Some [48; 48; 102; 102; 160]%N
  /\ checksum_on_disk [48; 48; 102; 102; 160]%N = "00ff"
  /\ checksum_on_disk [48; 48; 102; 102; 32; 160; 98; 101]%N = "00ffbe"
  /\ checksum_on_disk [48; 48; 102; 102; 160; 98; 101]%N = "".
Proof. repeat split; vm_compute; reflexivity. Qed.


(** What the pass does there: it raises, and returns no report. *)
Example non_expiring_key_pass :
  verify_files Fixture.hashlib Fixture.decode Sample.gpg_verify (Fixture.cfg None)
    (Fixture.tree 10 [("sha256", Fixture.sha256_of_payload);
                      ("asc", "REVKEYSIG B 1500000000")]) "p" [Sample.key_b]
  = Raise ValueError.
Proof. vm_compute. reflexivity. Qed.

(** C7 at work: a signature that names no key, and a signature made
    with a key of the key ring after the key's expiry, for an artefact
    that has a line in the report already. *)
Lemma invalid_signature_errors_witness :
  let st := push "/dist/p/a.zip" (Line (msg_no_strong_checksum "a.zip")) init_locals in
  (exists st',
     verify_signature Fixture.gpg_verify (Fixture.tree 10 [("asc", "garbage")])
       [Fixture.key_a] (known_fingerprints [Fixture.key_a])
       "a.zip" "/dist/p/a.zip" st = Ok st'
     /\ errors st' !! "/dist/p/a.zip"
        = Some ["No valid checksum files (.sha256, .sha512) found for a.zip";
                "The signature file a.zip was signed with a fingerprint not found in the project's KEYS file: None"])
  /\ (exists st',
        verify_signature Fixture.gpg_verify
          (Fixture.tree 10 [("asc", "SIG A 1700000000")])
          [Fixture.key_a] (known_fingerprints [Fixture.key_a])
          "a.zip" "/dist/p/a.zip" st = Ok st'
        /\ errors st' !! "/dist/p/a.zip"
           = Some ["No valid checksum files (.sha256, .sha512) found for a.zip";
                   "Detached signature file a.zip.asc was signed by Alice <alice@example.org> (AAAA) but the key has expired!"]).
Proof.
  cbv zeta. split.
  - destruct (proj1 (invalid_signature_errors Fixture.gpg_verify
                       (Fixture.tree 10 [("asc", "garbage")]) [Fixture.key_a]
                       (known_fingerprints [Fixture.key_a]) "a.zip" "/dist/p/a.zip"
                       (push "/dist/p/a.zip" (Line (msg_no_strong_checksum "a.zip"))
                          init_locals)
                       "garbage" eq_refl eq_refl) eq_refl) as (st' & H & E & _).
    exists st'. split; [exact H|exact E].
  - destruct (proj2 (invalid_signature_errors Fixture.gpg_verify
                       (Fixture.tree 10 [("asc", "SIG A 1700000000")]) [Fixture.key_a]
                       (known_fingerprints [Fixture.key_a]) "a.zip" "/dist/p/a.zip"
                       (push "/dist/p/a.zip" (Line (msg_no_strong_checksum "a.zip"))
                          init_locals)
                       "SIG A 1700000000" eq_refl eq_refl)
                Fixture.key_a 1600000000%Z 1700000000%Z
                "Alice <alice@example.org>" [] eq_refl eq_refl eq_refl eq_refl eq_refl)
      as (st' & H & E & _).
    exists st'. split; [exact H|exact E].
Defined.

(** C8 at work: an artefact newer than the cutoff without any side
    file gets the line about strong checksums and nothing about a
    signature. *)
Lemma no_signature_file_no_check_witness :
  verify_signature Fixture.gpg_verify (Fixture.tree 150 []) []
    (known_fingerprints []) "a.zip" (path_join "/dist/p" "a.zip") init_locals
  = Ok init_locals
  /\ verify_artifact Fixture.hashlib Fixture.decode Fixture.gpg_verify (Fixture.cfg (Some 100%Q))
       (Fixture.tree 150 []) [] (known_fingerprints []) "/dist/p" "a.zip" init_locals
     = verify_checksums Fixture.hashlib Fixture.decode (Fixture.cfg (Some 100%Q))
         (Fixture.tree 150 []) "a.zip" (path_join "/dist/p" "a.zip") init_locals.
Proof.
  apply (no_signature_file_no_check Fixture.hashlib Fixture.decode Fixture.gpg_verify
           (Fixture.cfg (Some 100%Q)) (Fixture.tree 150 []) []
           (known_fingerprints []) "/dist/p" "a.zip" init_locals).
  vm_compute. reflexivity.
Defined.

(** C9, the claim as stated fails: a first pass finds a KEYS file with
    the key AAAA and a signature made with it; the file is then taken
    away.  The second pass finds no KEYS file in the tree, and its
    finger print map still has the key: the signature is still
    accepted. *)
Lemma removed_key_still_known :
  let cfg := Fixture.cfg None in
  let homes1 : gmap string (list key) := {[ "/gpg/p" := [Fixture.key_a] ]} in
  scan_pass Fixture.hashlib Fixture.decode Fixture.gpg_verify Fixture.gpg_parse cfg ["p"]
    (Fixture.keys_tree (Some "KEY A")) ∅
  = Ok (homes1, [("p", ∅)])
  /\ os_walk (Fixture.keys_tree None) "/dist/p"
     = [("/dist/p", ["a.zip"; "a.zip.asc"; "a.zip.sha256"])]
  /\ pass_fingerprints Fixture.gpg_parse cfg (Fixture.keys_tree None) homes1 "p"
     = Ok {[ "AAAA" := Fixture.key_a ]}
  /\ scan_pass Fixture.hashlib Fixture.decode Fixture.gpg_verify Fixture.gpg_parse cfg ["p"]
       (Fixture.keys_tree None) homes1
     = Ok (homes1, [("p", ∅)])
  /\ scan_pass Fixture.hashlib Fixture.decode Fixture.gpg_verify Fixture.gpg_parse cfg ["p"]
       (Fixture.keys_tree None) ∅
     = Ok ({[ "/gpg/p" := [] ]},
           [("p", {[ "/dist/p/a.zip" :=
                       ["The signature file a.zip was signed with a fingerprint not found in the project's KEYS file: AAAA"] ]})]).
Proof. repeat split; vm_compute; reflexivity. Qed.

(** C9 as amended at work: the home directory holds the key 0000 from
    an earlier pass, the tree has a KEYS file with the key AAAA. *)
Lemma key_ring_persists_witness :
  let keychain := [Fixture.key_z; Fixture.key_a] in
  ({[ "/gpg/p" := keychain ]} : gmap string (list key)) !! "/gpg/p" = Some keychain
  /\ is_Some (known_fingerprints keychain !! "0000")
  /\ is_Some (known_fingerprints keychain !! "AAAA").
Proof.
  destruct (key_ring_persists Fixture.gpg_parse (Fixture.cfg None)
              (Fixture.keys_tree (Some "KEY A"))
              {[ "/gpg/p" := [Fixture.key_z] ]} "p"
              {[ "/gpg/p" := [Fixture.key_z; Fixture.key_a] ]}
              [Fixture.key_z; Fixture.key_a]) as (H1 & H2 & H3).
  - vm_compute. reflexivity.
  - split; [exact H1|]. split.
    + apply (H2 Fixture.key_z). vm_compute. left.
    + apply (H3 "/dist/p" ["KEYS"; "a.zip"; "a.zip.asc"; "a.zip.sha256"]
               "KEYS" "KEY A" Fixture.key_a).
      * vm_compute. left.
      * left.
      * left. reflexivity.
      * vm_compute. reflexivity.
      * vm_compute. left.
Defined.

(** * Further properties of the code *)

(** ** [push_error] and the shape of the report *)

(** A loop keeps a property that each run of its body, on an element of
    the list, keeps. *)
(** Pushing a list of lines is pushing its lines one after the other;
    the lines that were there stay in front, and the lines of other
    paths are not touched.  The list must not be empty: pushing the
    empty list adds the path with no line, pushing nothing does not. *)
Theorem push_error_lines_one_by_one e filepath l :
  l <> [] ->
  fold_left (fun edict s => push_error edict filepath (Line s)) l e
    = push_error e filepath (Lines l)
  /\ push_error e filepath (Lines l) !! filepath
     = Some (default [] (e !! filepath) ++ l)
  /\ forall p, p <> filepath -> push_error e filepath (Lines l) !! p = e !! p.
Proof.
  intros Hl. split; [|split].
  - destruct l as [|s l]; [congruence|]. clear Hl.
    revert e s. induction l as [|s' l IH]; intros e s.
    + cbn [fold_left push_error]. reflexivity.
    + change (fold_left (fun edict s0 => push_error edict filepath (Line s0))
                (s' :: l) (push_error e filepath (Line s))
              = push_error e filepath (Lines (s :: s' :: l))).
      rewrite IH. cbn [push_error]. rewrite lookup_insert_eq.
      rewrite insert_insert_eq. f_equal. simpl. rewrite <- app_assoc. reflexivity.
  - apply (push_error_lookup e filepath (Lines l)).
  - intros p Hp. apply push_error_lookup_ne. congruence.
Qed.

Lemma push_error_lines_one_by_one_witness :
  fold_left (fun edict s => push_error edict "a.zip" (Line s)) ["x"; "y"] ∅
  = push_error ∅ "a.zip" (Lines ["x"; "y"]).
Proof.
  apply (push_error_lines_one_by_one ∅ "a.zip" ["x"; "y"]). discriminate.
Defined.

Lemma touches_refl filepath st : touches filepath st st.
Proof. intros p msgs H. left. exact H. Qed.

Lemma touches_same filepath st st' :
  errors st' = errors st -> touches filepath st st'.
Proof. intros E p msgs H. left. rewrite <- E. exact H. Qed.

Lemma touches_trans filepath st1 st2 st3 :
  touches filepath st1 st2 -> touches filepath st2 st3 -> touches filepath st1 st3.
Proof.
  intros H12 H23 p msgs H. destruct (H23 _ _ H) as [H2|H2]; [|right; exact H2].
  apply H12, H2.
Qed.

Lemma touches_push filepath msg st :
  lines_of msg <> [] -> touches filepath st (push filepath msg st).
Proof.
  intros Hne p msgs H. cbn in H.
  destruct (decide (filepath = p)) as [<-|Hp].
  - right. split; [reflexivity|]. rewrite push_error_lookup in H.
    injection H as <-. intros E. apply app_eq_nil in E as [_ E]. exact (Hne E).
  - left. rewrite push_error_lookup_ne in H by exact Hp. exact H.
Qed.

Lemma touches_record filepath file_errors st :
  touches filepath st (record_checksum filepath file_errors st).
Proof.
  destruct file_errors as [|x l]; [intros p msgs H; left; exact H|].
  apply touches_push. discriminate.
Qed.

Section ReportShape.

Variable hashlib : string -> option digester.
Variable decode : string -> option (list N).
Variable gpg_verify : list key -> string -> res string -> verify.
Variable CFG : config.

Lemma check_strong_touches w filepath m st st' :
  check_strong hashlib decode w filepath m st = Ok st' -> touches filepath st st'.
Proof.
  unfold check_strong. destruct (path_exists w _).
  - intros (fe & _ & [= <-])%bind_ok.
    eapply touches_trans; [|apply touches_record].
    apply touches_same. reflexivity.
  - intros [= <-]. apply touches_same. reflexivity.
Qed.

Lemma verify_checksums_touches w filename filepath st st' :
  verify_checksums hashlib decode CFG w filename filepath st = Ok st' ->
  touches filepath st st'.
Proof.
  unfold verify_checksums. intros (st1 & H1 & H2)%bind_ok.
  assert (touches filepath st st1) as T1.
  { apply (touches_trans _ _ (set_valid 0 st)); [apply touches_same; reflexivity|].
    revert H1.
    apply (for_each_invariant _ (touches filepath) (touches_refl filepath)
             (touches_trans filepath)).
    intros a s s'. apply check_strong_touches. }
  eapply touches_trans; [exact T1|]. clear H1 T1.
  destruct (_ =? 0)%Z; [|injection H2 as <-; apply touches_refl].
  apply bind_ok in H2 as (mtime & _ & H2).
  destruct (Qle_bool _ _); [|injection H2 as <-; apply touches_push; discriminate].
  unfold weak_fallback in H2.
  set (st0 := fold_left (bind_weak filepath) (weak_checksums CFG) st1) in *.
  assert (touches filepath st1 st0) as T0.
  { intros p msgs H. left. subst st0.
    destruct (bind_weak_errors filepath (weak_checksums CFG) st1) as [E _].
    rewrite E in H. exact H. }
  eapply touches_trans; [exact T0|].
  apply bind_ok in H2 as (c & _ & H2). apply bind_ok in H2 as (st2 & H2 & H3).
  assert (touches filepath st0 st2) as T2.
  { destruct (path_exists w c).
    - apply bind_ok in H2 as (m & _ & H2).
      apply bind_ok in H2 as (fe & _ & [= <-]). apply touches_record.
    - injection H2 as <-. apply touches_refl. }
  eapply touches_trans; [exact T2|].
  destruct (_ =? 0)%Z; injection H3 as <-;
    [apply touches_push; discriminate|apply touches_refl].
Qed.

Lemma verify_signature_touches w keychain known filename filepath st st' :
  verify_signature gpg_verify w keychain known filename filepath st = Ok st' ->
  touches filepath st st'.
Proof.
  unfold verify_signature.
  destruct (path_exists w _); [|intros [= <-]; apply touches_refl].
  intros (asc & _ & H)%bind_ok.
  destruct (negb (valid _)); [|injection H as <-; apply touches_refl].
  destruct (known_key known _) as [fp|].
  - apply bind_ok in H as (e & _ & H). apply bind_ok in H as (t & _ & H).
    destruct (e <? t)%Z.
    + apply bind_ok in H as (o & _ & [= <-]). apply touches_push. discriminate.
    + destruct (negb (bool_decide _)); injection H as <-;
        [apply touches_push; discriminate|apply touches_refl].
  - injection H as <-. apply touches_push. discriminate.
Qed.

Lemma verify_artifact_touches w keychain known root filename st st' :
  verify_artifact hashlib decode gpg_verify CFG w keychain known root filename st = Ok st' ->
  touches (path_join root filename) st st'.
Proof.
  unfold verify_artifact. intros (st1 & H1 & H2)%bind_ok.
  eapply touches_trans;
    [eapply verify_checksums_touches, H1|eapply verify_signature_touches, H2].
Qed.

(** The report of a pass has entries for artefacts of the pass only,
    filed under the path of the artefact, and no entry without a line:
    the report is empty exactly when there is no error line. *)
Theorem report_entries_are_artifacts w project keychain report p msgs :
  verify_files hashlib decode gpg_verify CFG w project keychain = Ok report ->
  report !! p = Some msgs ->
  msgs <> []
  /\ exists root filename,
       (root, filename) ∈ artifacts CFG w project
       /\ selected CFG filename = true
       /\ p = path_join root filename.
Proof.
  unfold verify_files. intros (st & Hwalk & [= <-])%bind_ok.
  rewrite verify_walk_artifacts in Hwalk. revert p msgs.
  revert Hwalk.
  apply (for_each_preserves _
           (fun st => forall p msgs, errors st !! p = Some msgs ->
              msgs <> [] /\ exists root filename,
                (root, filename) ∈ artifacts CFG w project
                /\ selected CFG filename = true
                /\ p = path_join root filename)).
  - intros [root filename] s s' Hin Hs Hbody p msgs H. cbn [fst snd] in Hbody.
    apply verify_artifact_touches in Hbody.
    destruct (Hbody _ _ H) as [H0|[-> Hne]]; [apply Hs, H0|].
    split; [exact Hne|]. exists root, filename. split; [exact Hin|].
    split; [|reflexivity].
    unfold artifacts in Hin. apply list_elem_of_In, in_flat_map in Hin.
    destruct Hin as (entry & _ & Hin). apply in_map_iff in Hin.
    destruct Hin as (f & [= _ ->] & Hf). apply filter_In in Hf. tauto.
  - intros p msgs H. cbn in H. rewrite lookup_empty in H. discriminate.
Qed.

End ReportShape.

Lemma report_entries_are_artifacts_witness :
  [msg_no_strong_checksum "a.zip"] <> []
  /\ exists root filename,
       (root, filename) ∈ artifacts (Fixture.cfg (Some 100%Q)) (Fixture.tree 150 []) "p"
       /\ selected (Fixture.cfg (Some 100%Q)) filename = true
       /\ "/dist/p/a.zip" = path_join root filename.
Proof.
  apply (report_entries_are_artifacts Fixture.hashlib Fixture.decode Fixture.gpg_verify
           (Fixture.cfg (Some 100%Q)) (Fixture.tree 150 []) "p" []
           {[ "/dist/p/a.zip" := [msg_no_strong_checksum "a.zip"] ]}).
  - vm_compute. reflexivity.
  - vm_compute. reflexivity.
Defined.

(** ** The digest that a checksum file declares *)

Lemma all_app p a b : Py.all p (a +:+ b) = Py.all p a && Py.all p b.
Proof.
  induction a as [|c a IH]; [reflexivity|].
  change (p c && Py.all p (a +:+ b) = p c && Py.all p a && Py.all p b).
  rewrite IH, andb_assoc. reflexivity.
Qed.

Lemma lower_char_hex c : Py.ishex c = true -> Py.ishex (Py.lower_char c) = true.
Proof. destruct c as [[] [] [] [] [] [] [] []]; intros H; try discriminate H; reflexivity. Qed.

Lemma lower_char_idem c : Py.lower_char (Py.lower_char c) = Py.lower_char c.
Proof. destruct c as [[] [] [] [] [] [] [] []]; reflexivity. Qed.

Lemma lower_idem s : Py.lower (Py.lower s) = Py.lower s.
Proof.
  induction s as [|c s IH]; [reflexivity|].
  cbn [Py.lower]. rewrite lower_char_idem, IH. reflexivity.
Qed.

Lemma lower_hex s : Py.all Py.ishex s = true -> Py.all Py.ishex (Py.lower s) = true.
Proof.
  induction s as [|c s IH]; [reflexivity|].
  cbn [Py.lower Py.all]. intros [Hc Hs]%andb_prop.
  rewrite (lower_char_hex _ Hc), (IH Hs). reflexivity.
Qed.

Lemma join_hex l :
  Forall (fun x => Py.all Py.ishex x = true) l -> Py.all Py.ishex (Py.join l) = true.
Proof.
  induction 1 as [|x l Hx _ IH]; [reflexivity|].
  cbn [Py.join fold_right]. rewrite all_app, Hx. exact IH.
Qed.

Lemma ishex_bytes c : Uni.ishex c = true -> Py.ishex (ascii_of_N c) = true.
Proof.
  intros H.
  assert (c < 256)%N as B.
  { unfold Uni.ishex in H.
    repeat (apply orb_prop in H as [H|H]); apply andb_prop in H as [_ H];
      apply N.leb_le in H; lia. }
  unfold Py.ishex. unfold nat_of_ascii. rewrite (N_ascii_embedding _ B).
  unfold Uni.ishex in H. apply orb_true_iff in H as [H|H];
    [apply orb_true_iff in H as [H|H]|]; apply andb_prop in H as [H1 H2];
    apply N.leb_le in H1, H2.
  - apply orb_true_iff. left. apply orb_true_iff. left.
    apply andb_true_iff. split; apply Nat.leb_le; lia.
  - apply orb_true_iff. left. apply orb_true_iff. right.
    apply andb_true_iff. split; apply Nat.leb_le; lia.
  - apply orb_true_iff. right.
    apply andb_true_iff. split; apply Nat.leb_le; lia.
Qed.

Lemma bytes_hex s : forallb Uni.ishex s = true -> Py.all Py.ishex (Uni.bytes s) = true.
Proof.
  induction s as [|c s IH]; [reflexivity|].
  cbn [forallb]. intros [Hc Hs]%andb_prop.
  change (Py.ishex (ascii_of_N c) && Py.all Py.ishex (Uni.bytes s) = true).
  rewrite (ishex_bytes _ Hc), (IH Hs). reflexivity.
Qed.

(** Whatever the checksum file holds, the digest read from it is made
    of hexadecimal digits in lower case only: no file name, no
    separator and no upper-case letter reaches the comparison. *)
Theorem checksum_on_disk_lower_hex text :
  Py.all Py.ishex (checksum_on_disk text) = true
  /\ Py.lower (checksum_on_disk text) = checksum_on_disk text.
Proof.
  unfold checksum_on_disk. split; [|apply lower_idem].
  apply lower_hex, join_hex.
  apply Forall_forall. intros x Hx. apply list_elem_of_In, in_map_iff in Hx.
  destruct Hx as (y & <- & Hy). apply filter_In in Hy. apply bytes_hex, Hy.
Qed.

Lemma rstrip_app_space s c :
  Uni.isspace c = true -> Uni.rstrip (s ++ [c]) = Uni.rstrip s.
Proof.
  intros Hc. induction s as [|x s IH].
  - cbn [app Uni.rstrip]. rewrite Hc. reflexivity.
  - change (Uni.rstrip (x :: (s ++ [c])) = Uni.rstrip (x :: s)).
    cbn [Uni.rstrip]. rewrite IH. reflexivity.
Qed.

Lemma rstrip_app_token s name :
  nonempty name = true -> no_whitespace name = true ->
  Uni.rstrip (s ++ name) = s ++ name.
Proof.
  intros Hne Hnw. induction s as [|c s IH].
  - apply rstrip_no_whitespace, Hnw.
  - change (Uni.rstrip (c :: (s ++ name)) = c :: (s ++ name)).
    cbn [Uni.rstrip]. rewrite IH.
    destruct (s ++ name) eqn:E; [|reflexivity].
    apply app_eq_nil in E as [_ ->]. discriminate Hne.
Qed.

(** A text without the separator. *)
Lemma usplit_without_sep sep s :
  forallb (fun c => negb (c =? sep)%N) s = true -> Uni.split sep s = [s].
Proof.
  induction s as [|c s IH]; simpl; [reflexivity|].
  intros [Hc Hs]%andb_prop. apply negb_true_iff in Hc. rewrite Hc, (IH Hs).
  reflexivity.
Qed.

Lemma usplit_app_sep sep a b :
  forallb (fun c => negb (c =? sep)%N) a = true ->
  Uni.split sep (a ++ sep :: b) = a :: Uni.split sep b.
Proof.
  induction a as [|c a IH]; intros H.
  - cbn [app Uni.split]. rewrite N.eqb_refl. reflexivity.
  - cbn [forallb] in H. apply andb_prop in H as [Hc Ha].
    apply negb_true_iff in Hc.
    change (Uni.split sep (c :: (a ++ sep :: b)) = (c :: a) :: Uni.split sep b).
    cbn [Uni.split]. rewrite Hc, (IH Ha). reflexivity.
Qed.

Lemma hex_not_space c : Uni.ishex c = true -> Uni.isspace c = false.
Proof.
  unfold Uni.ishex, Uni.isspace. intros Hc.
  apply not_true_is_false. intros Hs.
  repeat (apply orb_prop in Hc as [Hc|Hc]); apply andb_prop in Hc as [H1 H2];
    apply N.leb_le in H1, H2;
    repeat (apply orb_prop in Hs as [Hs|Hs]);
    try (apply andb_prop in Hs as [H3 H4]; apply N.leb_le in H3, H4; lia);
    try (apply N.eqb_eq in Hs; lia).
Qed.

Lemma hex_no_whitespace s : forallb Uni.ishex s = true -> no_whitespace s = true.
Proof.
  induction s as [|c s IH]; [reflexivity|].
  cbn [forallb]. intros [Hc Hs]%andb_prop.
  change (negb (Uni.isspace c) && no_whitespace s = true).
  rewrite (hex_not_space _ Hc), (IH Hs). reflexivity.
Qed.

Lemma no_whitespace_no_space s :
  no_whitespace s = true -> forallb (fun c => negb (c =? 32)%N) s = true.
Proof.
  induction s as [|c s IH]; [reflexivity|].
  cbn [no_whitespace forallb]. intros [Hc Hs]%andb_prop.
  rewrite (IH Hs), andb_true_r.
  destruct (N.eqb_spec c 32) as [->|_]; [discriminate Hc|reflexivity].
Qed.

Lemma lstrip_token s rest :
  nonempty s = true -> no_whitespace s = true -> Uni.lstrip (s ++ rest) = s ++ rest.
Proof.
  destruct s as [|c s]; [discriminate|]. intros _ H.
  cbn [no_whitespace forallb] in H. apply andb_prop in H as [Hc _].
  change (Uni.lstrip (c :: (s ++ rest)) = c :: (s ++ rest)).
  cbn [Uni.lstrip]. destruct (Uni.isspace c); [discriminate Hc|reflexivity].
Qed.

Lemma append_assoc a b c : (a +:+ b) +:+ c = a +:+ b +:+ c.
Proof.
  induction a as [|x a IH]; [reflexivity|].
  change (String x ((a +:+ b) +:+ c) = String x (a +:+ b +:+ c)).
  rewrite IH. reflexivity.
Qed.

Lemma append_empty_r s : s +:+ "" = s.
Proof.
  induction s as [|c s IH]; [reflexivity|].
  change (String c (s +:+ "") = String c s). rewrite IH. reflexivity.
Qed.

(** The two usual layouts of a checksum file are read alike: the digest
    alone, or the digest, two spaces and the name of the file, each
    with a line feed at the end and in either case of the letters.
    The name must not itself be made of hexadecimal digits only: such
    a name would be taken for a part of the digest.  Whitespace is that
    of all of Unicode: a name with a no-break space in it is not
    covered. *)
Theorem checksum_file_layouts d name :
  nonempty d = true ->
  forallb Uni.ishex d = true ->
  no_whitespace name = true ->
  forallb Uni.ishex name = false ->
  checksum_on_disk (d ++ [10%N]) = Py.lower (Uni.bytes d)
  /\ checksum_on_disk (d ++ [32%N; 32%N] ++ name ++ [10%N]) = Py.lower (Uni.bytes d).
Proof.
  intros Hd Hhex Hname Hnothex.
  pose proof (hex_no_whitespace _ Hhex) as Hdw.
  assert (nonempty name = true) as Hne by (destruct name; [discriminate Hnothex|reflexivity]).
  assert (Uni.strip (d ++ [10%N]) = d) as S1.
  { unfold Uni.strip.
    rewrite (lstrip_token d _ Hd Hdw), (rstrip_app_space _ 10%N eq_refl).
    apply rstrip_no_whitespace, Hdw. }
  assert (Uni.strip (d ++ [32%N; 32%N] ++ name ++ [10%N])
          = d ++ 32%N :: ([] ++ 32%N :: name)) as S2.
  { unfold Uni.strip. rewrite (lstrip_token d _ Hd Hdw).
    assert (d ++ [32%N; 32%N] ++ name ++ [10%N]
            = ((d ++ [32%N; 32%N]) ++ name) ++ [10%N]) as ->.
    { rewrite <- !app_assoc. reflexivity. }
    rewrite (rstrip_app_space _ 10%N eq_refl), (rstrip_app_token _ _ Hne Hname).
    rewrite <- !app_assoc. reflexivity. }
  pose proof (strip_no_whitespace _ Hdw) as Sd.
  pose proof (strip_no_whitespace _ Hname) as Sn.
  split; unfold checksum_on_disk.
  - rewrite S1, (usplit_without_sep _ _ (no_whitespace_no_space _ Hdw)).
    unfold List.filter. rewrite Sd, Hhex. unfold map, Py.join, fold_right.
    rewrite Sd, append_empty_r. reflexivity.
  - rewrite S2, (usplit_app_sep 32 d _ (no_whitespace_no_space _ Hdw)).
    rewrite (usplit_app_sep 32 [] name eq_refl).
    rewrite (usplit_without_sep _ _ (no_whitespace_no_space _ Hname)).
    unfold List.filter. rewrite Sd, Hhex, Sn, Hnothex.
    change (Uni.strip []) with (@nil N). change (forallb Uni.ishex []) with true.
    unfold map, Py.join, fold_right. rewrite Sd.
    change (Uni.strip []) with (@nil N). change (Uni.bytes []) with "".
    change ("" +:+ "") with "".
    rewrite append_empty_r. reflexivity.
Qed.

Lemma checksum_file_layouts_witness :
  checksum_on_disk (Uni.codes "C0FFEE" ++ [10%N]) = "c0ffee"
  /\ checksum_on_disk (Uni.codes "C0FFEE" ++ [32%N; 32%N] ++ Uni.codes "a.zip" ++ [10%N])
     = "c0ffee".
Proof.
  apply (checksum_file_layouts (Uni.codes "C0FFEE") (Uni.codes "a.zip"));
    vm_compute; reflexivity.
Defined.

(** ** Paths and names in the error lines *)

Lemma contains_app c a b : Py.contains c (a +:+ b) = Py.contains c a || Py.contains c b.
Proof.
  induction a as [|x a IH]; [reflexivity|].
  change (Py.contains c (String x (a +:+ b))
          = Py.contains c (String x a) || Py.contains c b).
  cbn [Py.contains]. destruct (Ascii.eqb x c); [reflexivity|exact IH].
Qed.

Lemma basename_app x y :
  Py.contains "/" y = false -> basename (x +:+ y) = basename x +:+ y.
Proof.
  intros Hy. unfold basename. induction x as [|c x IH].
  - change (Py.last_item (Py.split "/" y) = Py.last_item (Py.split "/" "") +:+ y).
    rewrite (split_without_sep _ _ Hy). reflexivity.
  - change (Py.last_item (Py.split "/" (String c (x +:+ y)))
            = Py.last_item (Py.split "/" (String c x)) +:+ y).
    destruct (Py.contains "/" x) eqn:Hx.
    + rewrite (last_split_cons "/" c x Hx), last_split_cons; [exact IH|].
      rewrite contains_app, Hx. reflexivity.
    + assert (Py.contains "/" (x +:+ y) = false) as Hxy
        by (rewrite contains_app, Hx, Hy; reflexivity).
      cbn [Py.split]. rewrite (split_without_sep _ _ Hx), (split_without_sep _ _ Hxy).
      destruct (Ascii.eqb c "/"); reflexivity.
Qed.

Lemma endswith_contains c s : Py.endswith c s = true -> Py.contains c s = true.
Proof.
  induction s as [|d s IH]; [discriminate|].
  cbn [Py.endswith Py.contains]. destruct s as [|e s].
  - intros ->. reflexivity.
  - intros H. rewrite (IH H). destruct (Ascii.eqb d c); reflexivity.
Qed.

Lemma basename_endswith s : Py.endswith "/" s = true -> basename s = "".
Proof.
  unfold basename. induction s as [|d s IH]; [discriminate|].
  destruct s as [|e s].
  - cbn [Py.endswith]. intros H. cbn [Py.split]. rewrite H. reflexivity.
  - intros H. change (Py.endswith "/" (String e s) = true) in H.
    rewrite (last_split_cons "/" d _ (endswith_contains _ _ H)). apply IH, H.
Qed.

Lemma endswith_app_char c s : Py.endswith c (s +:+ String c "") = true.
Proof.
  induction s as [|d s IH]; [apply Ascii.eqb_refl|].
  change (Py.endswith c (String d (s +:+ String c "")) = true).
  cbn [Py.endswith]. destruct (s +:+ String c "") eqn:E; [|exact IH].
  destruct s; discriminate E.
Qed.

(** The names in the error lines are those of the walk: for a file name
    of a directory listing, which has no slash, the [basename] of the
    joined path is the file name again, and the [basename] of a side
    file is the file name with the suffix of the algorithm. *)
Theorem basename_path_join root filename :
  Py.contains "/" filename = false ->
  basename (path_join root filename) = filename
  /\ forall suffix,
       Py.contains "/" suffix = false ->
       basename (path_join root filename +:+ "." +:+ suffix)
       = filename +:+ "." +:+ suffix.
Proof.
  intros Hf.
  assert (basename (path_join root filename) = filename) as E.
  { unfold path_join.
    assert (match filename with String "/" _ => False | _ => True end) as Hs.
    { destruct filename as [|c f]; [exact I|].
      cbn [Py.contains] in Hf. destruct (Ascii.eqb_spec c "/") as [->|Hc];
        [discriminate Hf|].
      destruct c as [[] [] [] [] [] [] [] []]; try exact I. congruence. }
    assert (forall r, r = (match root with
                           | "" => filename
                           | _ => if Py.endswith "/" root then root +:+ filename
                                  else root +:+ "/" +:+ filename
                           end) -> basename r = filename) as G.
    { intros r ->. destruct root as [|c r].
      - unfold basename. rewrite (split_without_sep _ _ Hf). reflexivity.
      - destruct (Py.endswith "/" (String c r)) eqn:Hend.
        + rewrite (basename_app _ _ Hf), (basename_endswith _ Hend). reflexivity.
        + rewrite <- append_assoc, (basename_app _ _ Hf).
          rewrite (basename_endswith _ (endswith_app_char "/" _)). reflexivity. }
    destruct filename as [|c f]; [apply G; reflexivity|].
    destruct c as [[] [] [] [] [] [] [] []]; try (apply G; reflexivity).
    destruct Hs. }
  split; [exact E|]. intros suffix Hsuf.
  rewrite basename_app, E; [reflexivity|].
  change ("." +:+ suffix) with (String "." suffix). cbn [Py.contains].
  exact Hsuf.
Qed.

Lemma basename_path_join_witness :
  basename (path_join "/dist/p" "a.zip") = "a.zip"
  /\ forall suffix,
       Py.contains "/" suffix = false ->
       basename (path_join "/dist/p" "a.zip" +:+ "." +:+ suffix)
       = "a.zip" +:+ "." +:+ suffix.
Proof. apply (basename_path_join "/dist/p" "a.zip"). reflexivity. Defined.

(** ** The order of the files of a directory *)

Lemma leb_trans a b c :
  String.leb a b = true -> String.leb b c = true -> String.leb a c = true.
Proof.
  intros H1 H2. apply Is_true_true.
  apply Is_true_true in H1, H2.
  exact (transitivity (R := String.le) H1 H2).
Qed.

Lemma leb_false a b : String.leb a b = false -> String.leb b a = true.
Proof. intros H. destruct (String.leb_total a b) as [E|E]; congruence. Qed.

Lemma insert_sorted_comm x y l :
  Py.insert_sorted x (Py.insert_sorted y l) = Py.insert_sorted y (Py.insert_sorted x l).
Proof.
  induction l as [|z l IH]; cbn [Py.insert_sorted].
  - destruct (String.leb x y) eqn:Exy, (String.leb y x) eqn:Eyx;
      cbn [Py.insert_sorted]; rewrite ?Exy, ?Eyx; try reflexivity.
    + rewrite (String.leb_antisym _ _ Exy Eyx). reflexivity.
    + apply leb_false in Exy. congruence.
  - destruct (String.leb y z) eqn:Eyz, (String.leb x z) eqn:Exz;
      cbn [Py.insert_sorted]; rewrite ?Eyz, ?Exz.
    + destruct (String.leb x y) eqn:Exy, (String.leb y x) eqn:Eyx;
        cbn [Py.insert_sorted]; rewrite ?Eyz, ?Exz; try reflexivity.
      * rewrite (String.leb_antisym _ _ Exy Eyx). reflexivity.
      * apply leb_false in Exy. congruence.
    + assert (String.leb x y = false) as ->.
      { destruct (String.leb x y) eqn:Exy; [|reflexivity].
        rewrite (leb_trans _ _ _ Exy Eyz) in Exz. discriminate. }
      cbn [Py.insert_sorted]. rewrite ?Exz, ?Eyz. reflexivity.
    + assert (String.leb y x = false) as ->.
      { destruct (String.leb y x) eqn:Eyx; [|reflexivity].
        rewrite (leb_trans _ _ _ Eyx Exz) in Eyz. discriminate. }
      cbn [Py.insert_sorted]. rewrite ?Exz, ?Eyz. reflexivity.
    + rewrite IH. reflexivity.
Qed.

Lemma sorted_permutation l l' : Permutation l l' -> Py.sorted l = Py.sorted l'.
Proof.
  unfold Py.sorted. induction 1 as [|x l l' _ IH|x y l|l1 l2 l3 _ IH1 _ IH2].
  - reflexivity.
  - cbn [fold_right]. rewrite IH. reflexivity.
  - cbn [fold_right]. apply insert_sorted_comm.
  - congruence.
Qed.

(** What is done for a directory does not depend on the order in which
    the operating system lists its files: the files are gone through
    in sorted order. *)
Theorem verify_dir_any_listing_order hashlib decode gpg_verify CFG w keychain known
    root files files' st :
  Permutation files files' ->
  verify_dir hashlib decode gpg_verify CFG w keychain known (root, files) st
  = verify_dir hashlib decode gpg_verify CFG w keychain known (root, files') st.
Proof.
  intros H. unfold verify_dir. cbn [fst snd].
  rewrite (sorted_permutation _ _ H). reflexivity.
Qed.

Lemma verify_dir_any_listing_order_witness :
  verify_dir Fixture.hashlib Fixture.decode Fixture.gpg_verify (Fixture.cfg None)
    (Fixture.tree 10 []) [] ∅ ("/dist/p", ["b.zip"; "a.zip"]) init_locals
  = verify_dir Fixture.hashlib Fixture.decode Fixture.gpg_verify (Fixture.cfg None)
      (Fixture.tree 10 []) [] ∅ ("/dist/p", ["a.zip"; "b.zip"]) init_locals.
Proof.
  apply (verify_dir_any_listing_order Fixture.hashlib Fixture.decode Fixture.gpg_verify
           (Fixture.cfg None) (Fixture.tree 10 []) [] ∅ "/dist/p"
           ["b.zip"; "a.zip"] ["a.zip"; "b.zip"] init_locals).
  apply perm_swap.
Defined.

(** ** More on the checksum policy and the signature check *)

Section MorePolicy.

Variable hashlib : string -> option digester.
Variable decode : string -> option (list N).
Variable gpg_verify : list key -> string -> res string -> verify.
Variable CFG : config.

Lemma strong_loop_clean w filepath l st :
  (forall m, m ∈ l -> path_exists w (filepath +:+ "." +:+ m) = true ->
             verify_checksum hashlib decode w filepath m = Ok []) ->
  exists st',
    for_each (check_strong hashlib decode w filepath) l st = Ok st'
    /\ errors st' = errors st
    /\ (valid_checksums_found st <= valid_checksums_found st')%Z
    /\ ((exists m, m ∈ l /\ path_exists w (filepath +:+ "." +:+ m) = true) ->
        (valid_checksums_found st < valid_checksums_found st')%Z).
Proof.
  revert st. induction l as [|m l IH]; intros st Hl.
  - exists st. repeat split; [lia|]. intros (m & Hm & _). inversion Hm.
  - cbn [for_each].
    assert (check_strong hashlib decode w filepath m st
            = Ok (if path_exists w (filepath +:+ "." +:+ m)
                  then incr_valid (set_chkfile (filepath +:+ "." +:+ m) (set_method m st))
                  else set_chkfile (filepath +:+ "." +:+ m) (set_method m st))) as ->.
    { unfold check_strong.
      destruct (path_exists w (filepath +:+ "." +:+ m)) eqn:Hex; [|reflexivity].
      rewrite (Hl m (list_elem_of_here _ _) Hex). reflexivity. }
    cbn [mbind res_bind].
    destruct (path_exists w (filepath +:+ "." +:+ m)) eqn:Hex.
    + destruct (IH (incr_valid (set_chkfile (filepath +:+ "." +:+ m) (set_method m st))))
        as (st' & -> & E & V & _).
      { intros m' Hm'. apply Hl. right. exact Hm'. }
      exists st'. cbn in E, V. repeat split; [exact E|lia|intros _; lia].
    + destruct (IH (set_chkfile (filepath +:+ "." +:+ m) (set_method m st)))
        as (st' & -> & E & V & W).
      { intros m' Hm'. apply Hl. right. exact Hm'. }
      exists st'. cbn in E, V, W. repeat split; [exact E|exact V|].
      intros (m' & Hm' & Hex'). apply W. exists m'. split; [|exact Hex'].
      apply elem_of_cons in Hm' as [->|Hm']; [congruence|exact Hm'].
Qed.

(** An artefact leaves no trace in the report when each strong checksum
    file it has verifies, it has at least one, and its signature is
    absent or reported valid: whatever its age, the weak checksums and
    their files are not looked at. *)
Theorem clean_artifact_not_reported w keychain known root filename st :
  let filepath := path_join root filename in
  (forall m, m ∈ strong_checksums CFG ->
             path_exists w (filepath +:+ "." +:+ m) = true ->
             verify_checksum hashlib decode w filepath m = Ok []) ->
  (exists m, m ∈ strong_checksums CFG
             /\ path_exists w (filepath +:+ "." +:+ m) = true) ->
  (nodes w !! (filepath +:+ ".asc") = None
   \/ exists asc, read_file w (filepath +:+ ".asc") = Ok asc
        /\ valid (gpg_verify keychain asc (read_file w filepath)) = true) ->
  exists st',
    verify_artifact hashlib decode gpg_verify CFG w keychain known root filename st = Ok st'
    /\ errors st' = errors st
    /\ (1 <= valid_checksums_found st')%Z.
Proof.
  intros filepath Hclean Hsome Hsig. unfold verify_artifact, verify_checksums.
  fold filepath.
  destruct (strong_loop_clean w filepath (strong_checksums CFG) (set_valid 0 st) Hclean)
    as (st1 & -> & E & _ & V).
  specialize (V Hsome). cbn in E, V. cbn [mbind res_bind].
  destruct (Z.eqb_spec (valid_checksums_found st1) 0) as [Z0|_]; [lia|].
  cbn [mbind res_bind]. exists st1.
  split; [|split; [exact E|lia]].
  unfold verify_signature, path_exists.
  destruct Hsig as [Hno|(asc & Hasc & Hvalid)].
  - rewrite Hno, bool_decide_eq_false_2; [reflexivity|].
    intros [x Hx]. discriminate.
  - assert (is_Some (nodes w !! (filepath +:+ ".asc"))) as Hex.
    { unfold read_file in Hasc. destruct (nodes w !! _); [eauto|discriminate]. }
    rewrite (bool_decide_eq_true_2 _ Hex), Hasc. cbn [mbind res_bind].
    rewrite Hvalid. reflexivity.
Qed.

(** A signature reported as not valid, of a key of the finger print map
    that had not expired when the signature was made, is reported
    with the status of the verification, word for word: the step
    returns with exactly that line added, last under the path of the
    artefact, and the rest of the report as it was.  It is not reported
    at all when that status reads [signature valid]. *)
Theorem unexpired_key_status_line w keychain known filename filepath st asc k e t :
  read_file w (filepath +:+ ".asc") = Ok asc ->
  let verified := gpg_verify keychain asc (read_file w filepath) in
  valid verified = false ->
  known_key known verified = Some k ->
  Py.int (expires k) = Ok e ->
  Py.int (sig_timestamp verified) = Ok t ->
  (t <= e)%Z ->
  (status verified = Some "signature valid" ->
     verify_signature gpg_verify w keychain known filename filepath st = Ok st)
  /\ (status verified <> Some "signature valid" ->
        exists st',
          verify_signature gpg_verify w keychain known filename filepath st = Ok st'
          /\ errors st' !! filepath
             = Some (default [] (errors st !! filepath)
                     ++ ["Detached signature file " +:+ filename
                         +:+ ".asc could not be used to verify " +:+ filename
                         +:+ ": " +:+ Py.fmt (status verified)])
          /\ (forall p, p <> filepath -> errors st' !! p = errors st !! p)
          /\ valid_checksums_found st' = valid_checksums_found st).
Proof.
  intros Hasc verified Hv Hk He Ht Hle.
  assert (verify_signature gpg_verify w keychain known filename filepath st
          = if negb (bool_decide (status verified = Some "signature valid"))
            then Ok (push filepath (Line (msg_status filename (status verified))) st)
            else Ok st) as ->.
  { rewrite (verify_signature_invalid _ _ _ _ _ _ _ _ Hasc Hv).
    cbv zeta. fold verified. rewrite Hk, He. cbn [mbind res_bind].
    rewrite Ht. cbn [mbind res_bind].
    assert ((e <? t)%Z = false) as -> by (apply Z.ltb_ge; exact Hle).
    reflexivity. }
  split; intros Hs.
  - rewrite (bool_decide_eq_true_2 _ Hs). reflexivity.
  - rewrite (bool_decide_eq_false_2 _ Hs). eexists.
    split; [reflexivity|apply push_adds_line].
Qed.

(** The signature check raises where a value of the tool chain does not
    convert: an expiry or a signature time that is not an integer (the
    empty text of a key without expiry is one), and a key without
    identity when it has expired. *)
Theorem signature_conversion_raises w keychain known filename filepath st asc k :
  read_file w (filepath +:+ ".asc") = Ok asc ->
  let verified := gpg_verify keychain asc (read_file w filepath) in
  valid verified = false ->
  known_key known verified = Some k ->
  (forall x, Py.int (expires k) = Raise x ->
     verify_signature gpg_verify w keychain known filename filepath st = Raise x)
  /\ (forall e x, Py.int (expires k) = Ok e ->
        Py.int (sig_timestamp verified) = Raise x ->
        verify_signature gpg_verify w keychain known filename filepath st = Raise x)
  /\ (forall e t, Py.int (expires k) = Ok e ->
        Py.int (sig_timestamp verified) = Ok t ->
        (e < t)%Z -> uids k = [] ->
        verify_signature gpg_verify w keychain known filename filepath st
        = Raise IndexError)
  /\ (expires k = Py.PStr "" ->
        verify_signature gpg_verify w keychain known filename filepath st
        = Raise ValueError).
Proof.
  intros Hasc verified Hv Hk.
  rewrite (verify_signature_invalid _ _ _ _ _ _ _ _ Hasc Hv).
  cbv zeta. fold verified. rewrite Hk.
  split; [|split; [|split]].
  - intros x ->. reflexivity.
  - intros e x -> Ht. cbn [mbind res_bind]. rewrite Ht. reflexivity.
  - intros e t -> Ht Hlt Hu. cbn [mbind res_bind]. rewrite Ht. cbn [mbind res_bind].
    apply Z.ltb_lt in Hlt. rewrite Hlt. unfold first_uid. rewrite Hu. reflexivity.
  - intros ->. reflexivity.
Qed.

(** An exception for one artefact ends the pass: [verify_files] raises
    it and returns no report, whatever was found for the artefacts
    before it. *)
Theorem exception_aborts_pass w project keychain pre root filename post st x :
  artifacts CFG w project = pre ++ (root, filename) :: post ->
  locals_after hashlib decode gpg_verify CFG w keychain pre = Ok st ->
  verify_artifact hashlib decode gpg_verify CFG w keychain (known_fingerprints keychain)
    root filename st = Raise x ->
  verify_files hashlib decode gpg_verify CFG w project keychain = Raise x.
Proof.
  intros Harts Hpre Hraise. unfold verify_files.
  rewrite verify_walk_artifacts, Harts, for_each_app.
  unfold locals_after in Hpre. rewrite Hpre. cbn [mbind res_bind for_each fst snd].
  rewrite Hraise. reflexivity.
Qed.

(** With no checksum algorithm configured at all, an artefact newer
    than the cutoff gets the line about strong checksums, and the first
    artefact at or before the cutoff stops the pass: the fallback reads
    [chkfile], which no loop has bound. *)
Theorem no_algorithm_configured w filename filepath st n :
  strong_checksums CFG = [] ->
  weak_checksums CFG = [] ->
  nodes w !! filepath = Some n ->
  ((deadline CFG < mtime_of n)%Q ->
     verify_checksums hashlib decode CFG w filename filepath st
     = Ok (push filepath (Line (msg_no_strong_checksum filename)) (set_valid 0 st)))
  /\ ((mtime_of n <= deadline CFG)%Q -> chkfile st = None ->
        verify_checksums hashlib decode CFG w filename filepath st = Raise UnboundLocalError).
Proof.
  intros Hs Hw Hn. unfold verify_checksums, stat_mtime, weak_fallback.
  rewrite Hs, Hw, Hn. cbn [for_each mbind res_bind set_valid valid_checksums_found Z.eqb fold_left].
  split.
  - intros Hlt. rewrite (Qle_bool_false _ _ Hlt). reflexivity.
  - intros Hle Hc. apply Qle_bool_iff in Hle. rewrite Hle.
    change (chkfile (set_valid 0 st)) with (chkfile st). rewrite Hc. reflexivity.
Qed.

(** What can go wrong for a strong checksum: nothing when its file is
    not there.  When it is there, each exception has its cause: the
    side file or the artefact is a directory, or may not be read; the
    bytes of the side file are not text in the codec of the locale;
    [hashlib] does not have the algorithm, or has it with a variable
    length; the artefact cannot be opened because it is not there (a
    dangling link). *)
Theorem check_strong_failures w filepath m st x :
  check_strong hashlib decode w filepath m st = Raise x ->
  path_exists w (filepath +:+ "." +:+ m) = true
  /\ ((x = IsADirectoryError
       /\ exists t, nodes w !! (filepath +:+ "." +:+ m) = Some (Dir t))
      \/ (x = PermissionError
          /\ exists t, nodes w !! (filepath +:+ "." +:+ m) = Some (Unreadable t))
      \/ (x = UnicodeDecodeError
          /\ exists content t,
               nodes w !! (filepath +:+ "." +:+ m) = Some (File content t)
               /\ decode content = None)
      \/ (x = ValueError /\ hashlib m = None)
      \/ (x = FileNotFoundError /\ nodes w !! filepath = None)
      \/ (x = IsADirectoryError /\ exists t, nodes w !! filepath = Some (Dir t))
      \/ (x = PermissionError /\ exists t, nodes w !! filepath = Some (Unreadable t))
      \/ (x = TypeError /\ hashlib m = Some NeedsLength
          /\ exists content t, nodes w !! filepath = Some (File content t))).
Proof.
  unfold check_strong. destruct (path_exists w _) eqn:Hex; [|discriminate].
  intros H. split; [reflexivity|].
  unfold verify_checksum, read_text, read_file, digest in H.
  destruct (nodes w !! (filepath +:+ "." +:+ m)) as [[content t|t|t]|] eqn:Hs.
  - cbn [mbind res_bind] in H.
    destruct (decode content) as [text|] eqn:Hd; cbn [mbind res_bind] in H.
    + do 3 right.
      destruct (hashlib m) as [d|]; [|injection H as <-; left; split; reflexivity].
      right. unfold read_file in H.
      destruct (nodes w !! filepath) as [[c t'|t'|t']|] eqn:Ha; cbn [mbind res_bind] in H.
      * destruct d as [h|].
        -- cbn [mbind res_bind] in H. destruct (negb _); discriminate H.
        -- injection H as <-. do 3 right. split; [reflexivity|]. split; eauto.
      * injection H as <-. right. left. split; [reflexivity|eauto].
      * injection H as <-. do 2 right. left. split; [reflexivity|eauto].
      * injection H as <-. left. split; reflexivity.
    + injection H as <-. do 2 right. left. split; [reflexivity|eauto].
  - injection H as <-. left. split; [reflexivity|eauto].
  - injection H as <-. right. left. split; [reflexivity|eauto].
  - unfold path_exists in Hex. rewrite Hs in Hex.
    apply bool_decide_eq_true in Hex as [y Hy]. discriminate.
Qed.

End MorePolicy.

(** ** The finger print map, [load_keys] and the scan *)

(** The finger print map gives, for a finger print, a key of the key
    ring with that finger print, and of several such keys the one that
    [list_keys] gives last. *)
Theorem known_fingerprints_lookup keychain :
  (forall f k, known_fingerprints keychain !! f = Some k ->
     fingerprint k = f /\ k ∈ keychain)
  /\ (forall l1 k l2, keychain = l1 ++ k :: l2 ->
        fingerprint k ∉ map fingerprint l2 ->
        known_fingerprints keychain !! fingerprint k = Some k).
Proof.
  unfold known_fingerprints.
  assert (forall l (m : gmap string key) f k,
            fold_left (fun m k => <[fingerprint k := k]> m) l m !! f = Some k ->
            (fingerprint k = f /\ k ∈ l) \/ m !! f = Some k) as G1.
  { induction l as [|k0 l IH]; intros m f k H; cbn [fold_left] in H; [right; exact H|].
    apply IH in H as [[E Hin]|H]; [left; split; [exact E|right; exact Hin]|].
    destruct (decide (fingerprint k0 = f)) as [E|E].
    - rewrite E, lookup_insert_eq in H. injection H as ->.
      left. split; [exact E|left].
    - rewrite lookup_insert_ne in H by exact E. right. exact H. }
  assert (forall l (m : gmap string key) f,
            f ∉ map fingerprint l ->
            fold_left (fun m k => <[fingerprint k := k]> m) l m !! f = m !! f) as G2.
  { induction l as [|k0 l IH]; intros m f H; cbn [fold_left]; [reflexivity|].
    cbn [map] in H. apply not_elem_of_cons in H as [Hne Hl].
    rewrite (IH _ _ Hl). apply lookup_insert_ne. congruence. }
  split.
  - intros f k H. apply G1 in H as [H|H]; [exact H|].
    rewrite lookup_empty in H. discriminate.
  - intros l1 k l2 -> Hl2. rewrite fold_left_app. cbn [fold_left].
    rewrite (G2 _ _ _ Hl2). apply lookup_insert_eq.
Qed.

Section MoreKeys.

Variable hashlib : string -> option digester.
Variable decode : string -> option (list N).
Variable gpg_verify : list key -> string -> res string -> verify.
Variable gpg_parse : string -> list key.
Variable CFG : config.

Lemma load_file_other_name w root filename keyring :
  filename <> "KEYS" -> filename <> "KEYS.txt" ->
  load_file gpg_parse w root filename keyring = Ok keyring.
Proof.
  intros N1 N2. unfold load_file. rewrite bool_decide_eq_false_2; [reflexivity|].
  intros Hin. apply elem_of_cons in Hin as [E|Hin]; [congruence|].
  apply elem_of_cons in Hin as [E|Hin]; [congruence|]. inversion Hin.
Qed.

Lemma load_dir_without_keys w entry keyring :
  "KEYS" ∉ snd entry -> "KEYS.txt" ∉ snd entry ->
  load_dir gpg_parse w entry keyring = Ok keyring.
Proof.
  unfold load_dir. generalize (snd entry) as files.
  induction files as [|f files IH]; intros H1 H2; [reflexivity|].
  apply not_elem_of_cons in H1 as [N1 H1]. apply not_elem_of_cons in H2 as [N2 H2].
  cbn [for_each]. rewrite load_file_other_name by congruence.
  cbn [mbind res_bind]. apply IH; assumption.
Qed.

Lemma load_keys_ring w homes project homes' keychain :
  load_keys gpg_parse CFG w homes project = Ok (homes', keychain) ->
  homes' !! path_join (gpg_homedir CFG) project = Some keychain
  /\ keeps (default [] (homes !! path_join (gpg_homedir CFG) project)) keychain.
Proof.
  unfold load_keys. destruct (negb _); [discriminate|].
  set (gpg_dir := path_join (gpg_homedir CFG) project).
  set (homes0 := if negb (bool_decide (is_Some (homes !! gpg_dir)))
                 then <[gpg_dir := []]> homes else homes).
  assert (default [] (homes0 !! gpg_dir) = default [] (homes !! gpg_dir)) as E0.
  { subst homes0. destruct (bool_decide _) eqn:B; cbn [negb]; [reflexivity|].
    apply bool_decide_eq_false in B. rewrite lookup_insert_eq.
    destruct (homes !! gpg_dir); [exfalso; apply B; eauto|reflexivity]. }
  rewrite E0. intros (ring & Hloop & [= <- <-])%bind_ok.
  split; [apply lookup_insert_eq|].
  revert Hloop. apply (for_each_invariant _ keeps keeps_refl keeps_trans).
  intros a s s'. apply load_dir_keeps.
Qed.

(** [load_keys] stops on an assertion for the empty project name and
    for a project without directory.  Otherwise, when no file of the
    tree is named exactly [KEYS] or [KEYS.txt], it reads no file and
    returns the key ring that the home directory of the project held,
    the empty one for a home directory that it had to create. *)
Theorem load_keys_without_keys_files w homes project :
  ((project = "" \/ isdir w (path_join (dist_dir CFG) project) = false) ->
     load_keys gpg_parse CFG w homes project = Raise AssertionError)
  /\ (project <> "" ->
      isdir w (path_join (dist_dir CFG) project) = true ->
      (forall entry, entry ∈ os_walk w (path_join (dist_dir CFG) project) ->
         ("KEYS" ∉ snd entry) /\ ("KEYS.txt" ∉ snd entry)) ->
      let keyring := default [] (homes !! path_join (gpg_homedir CFG) project) in
      load_keys gpg_parse CFG w homes project
      = Ok (<[path_join (gpg_homedir CFG) project := keyring]> homes, keyring)).
Proof.
  split.
  - intros [->|H]; unfold load_keys; [reflexivity|].
    rewrite H, andb_false_r. reflexivity.
  - intros Hp Hd Hwalk keyring. unfold load_keys.
    apply String.eqb_neq in Hp. rewrite Hp, Hd. cbn [negb andb].
    set (gpg_dir := path_join (gpg_homedir CFG) project) in *.
    set (homes0 := if negb (bool_decide (is_Some (homes !! gpg_dir)))
                   then <[gpg_dir := []]> homes else homes).
    assert (default [] (homes0 !! gpg_dir) = keyring) as ->.
    { subst homes0 keyring. destruct (bool_decide _) eqn:B; cbn [negb]; [reflexivity|].
      apply bool_decide_eq_false in B. rewrite lookup_insert_eq.
      destruct (homes !! gpg_dir); [exfalso; apply B; eauto|reflexivity]. }
    assert (for_each (load_dir gpg_parse w)
              (os_walk w (path_join (dist_dir CFG) project)) keyring = Ok keyring) as ->.
    { revert Hwalk. generalize (os_walk w (path_join (dist_dir CFG) project)) as l.
      induction l as [|entry l IH]; intros Hl; [reflexivity|].
      cbn [for_each]. destruct (Hl entry (list_elem_of_here _ _)) as [N1 N2].
      rewrite (load_dir_without_keys _ _ _ N1 N2). cbn [mbind res_bind].
      apply IH. intros e He. apply Hl. right. exact He. }
    cbn [mbind res_bind]. f_equal. f_equal.
    subst homes0. destruct (bool_decide _); cbn [negb]; [reflexivity|].
    apply insert_insert_eq.
Qed.

Lemma load_keys_homes w homes project homes' keychain :
  load_keys gpg_parse CFG w homes project = Ok (homes', keychain) ->
  (forall h, h <> path_join (gpg_homedir CFG) project -> homes' !! h = homes !! h)
  /\ forall h keyring, homes !! h = Some keyring ->
       exists keyring', homes' !! h = Some keyring' /\ keeps keyring keyring'.
Proof.
  intros H.
  assert (forall h, h <> path_join (gpg_homedir CFG) project ->
                    homes' !! h = homes !! h) as Hother.
  { revert H. unfold load_keys. destruct (negb _); [discriminate|].
    intros (ring & _ & [= <- _])%bind_ok. intros h Hh.
    rewrite lookup_insert_ne by congruence.
    destruct (negb (bool_decide _)); [|reflexivity].
    apply lookup_insert_ne. congruence. }
  split; [exact Hother|]. intros h keyring Hk.
  destruct (decide (h = path_join (gpg_homedir CFG) project)) as [->|Hne].
  - destruct (load_keys_ring _ _ _ _ _ H) as [H1 H2].
    exists keychain. split; [exact H1|]. rewrite Hk in H2. exact H2.
  - exists keyring. rewrite (Hother _ Hne). split; [exact Hk|apply keeps_refl].
Qed.

(** [load_keys] changes the home directory of its project and no
    other, and the key ring it leaves there has every finger print
    that was there. *)
Theorem load_keys_other_homes w homes project homes' keychain :
  load_keys gpg_parse CFG w homes project = Ok (homes', keychain) ->
  (forall h, h <> path_join (gpg_homedir CFG) project -> homes' !! h = homes !! h)
  /\ forall h keyring, homes !! h = Some keyring ->
       exists keyring', homes' !! h = Some keyring' /\ keeps keyring keyring'.
Proof. apply load_keys_homes. Qed.

(** A pass that returns has one report for each project, in the order
    of the projects, and leaves every home directory that existed with
    all the finger prints it had. *)
Theorem scan_pass_reports projects w homes homes' reports :
  scan_pass hashlib decode gpg_verify gpg_parse CFG projects w homes = Ok (homes', reports) ->
  map fst reports = projects
  /\ forall h keyring, homes !! h = Some keyring ->
       exists keyring', homes' !! h = Some keyring' /\ keeps keyring keyring'.
Proof.
  unfold scan_pass.
  assert (forall l acc acc',
            for_each (scan_project hashlib decode gpg_verify gpg_parse CFG w) l acc = Ok acc' ->
            map fst (snd acc') = map fst (snd acc) ++ l
            /\ forall h keyring, fst acc !! h = Some keyring ->
                 exists keyring', fst acc' !! h = Some keyring' /\ keeps keyring keyring') as G.
  { induction l as [|project l IH]; intros acc acc' H.
    - injection H as <-. rewrite app_nil_r. split; [reflexivity|].
      intros h keyring Hk. exists keyring. split; [exact Hk|apply keeps_refl].
    - cbn [for_each] in H. apply bind_ok in H as (acc1 & H1 & H2).
      unfold scan_project in H1. apply bind_ok in H1 as ([homes1 kc] & Hload & H1).
      apply bind_ok in H1 as (errs & _ & [= <-]).
      apply IH in H2 as [E K]. cbn [fst snd] in E, K. split.
      + rewrite E, map_app, <- app_assoc. reflexivity.
      + intros h keyring Hk.
        destruct (load_keys_homes _ _ _ _ _ Hload) as [_ K1].
        destruct (K1 _ _ Hk) as (k1 & Hk1 & Kk1).
        destruct (K _ _ Hk1) as (k2 & Hk2 & Kk2).
        exists k2. split; [exact Hk2|eapply keeps_trans; eassumption]. }
  intros H. apply G in H as [E K]. split; [exact E|exact K].
Qed.

End MoreKeys.

(** The projects that [main] scans are directories of the distribution
    directory, all of them when no argument of the command line names
    one (a misspelt project name restricts nothing), and otherwise the
    arguments that name one, in the order of the command line. *)
Theorem select_projects_spec w dist listing argv :
  let projects := List.filter (fun x => isdir w (path_join dist x)) listing in
  (forall p, p ∈ select_projects w dist listing argv ->
     p ∈ listing /\ isdir w (path_join dist p) = true)
  /\ ((forall arg, arg ∈ argv -> arg ∉ projects) ->
      select_projects w dist listing argv = projects)
  /\ ((exists arg, arg ∈ argv /\ arg ∈ projects) ->
      select_projects w dist listing argv
      = List.filter (fun arg => bool_decide (arg ∈ projects)) argv).
Proof.
  intros projects. unfold select_projects. fold projects.
  assert (forall p, p ∈ projects -> p ∈ listing /\ isdir w (path_join dist p) = true) as Hp.
  { intros p Hin. apply list_elem_of_In, filter_In in Hin as [Hin Hd].
    split; [apply list_elem_of_In, Hin|exact Hd]. }
  split; [|split].
  - intros p. destruct (List.filter _ argv) as [|a l] eqn:E; [apply Hp|].
    intros Hin. rewrite <- E in Hin.
    apply list_elem_of_In, filter_In in Hin as [_ Hin].
    apply bool_decide_eq_true in Hin. apply Hp, Hin.
  - intros Hno. destruct (List.filter _ argv) as [|a l] eqn:E; [reflexivity|].
    assert (a ∈ List.filter (fun arg => bool_decide (arg ∈ projects)) argv) as Hin
      by (rewrite E; left).
    apply list_elem_of_In, filter_In in Hin as [Ha Hin].
    apply bool_decide_eq_true in Hin. destruct (Hno a); [apply list_elem_of_In, Ha|exact Hin].
  - intros (arg & Ha & Hin).
    destruct (List.filter _ argv) as [|a l] eqn:E; [|reflexivity].
    assert (arg ∈ List.filter (fun arg => bool_decide (arg ∈ projects)) argv) as Hf.
    { apply list_elem_of_In, filter_In. split; [apply list_elem_of_In, Ha|].
      apply bool_decide_eq_true, Hin. }
    rewrite E in Hf. inversion Hf.
Qed.

(** ** [alert_project] *)

Lemma fold_append {A : Type} (f : A -> string) l acc :
  fold_left (fun msg a => msg +:+ f a) l acc = acc +:+ Py.join (map f l).
Proof.
  revert acc. induction l as [|a l IH]; intros acc; cbn [fold_left map Py.join fold_right].
  - rewrite append_empty_r. reflexivity.
  - rewrite IH, append_assoc. reflexivity.
Qed.

Lemma join_app l1 l2 : Py.join (l1 ++ l2) = Py.join l1 +:+ Py.join l2.
Proof.
  induction l1 as [|x l1 IH]; [reflexivity|].
  cbn [app Py.join fold_right]. fold (Py.join (l1 ++ l2)). fold (Py.join l1).
  rewrite IH, append_assoc. reflexivity.
Qed.

(** The text of the errors has one block for each file of the report,
    in the order of the report: the line that names the file, one
    bullet line for each error line in their order, and an empty
    line. *)
Theorem errormsg_blocks pre filepath errorlines post :
  errormsg_of (pre ++ (filepath, errorlines) :: post)
  = errormsg_of pre
    +:+ ("Errors were found while verifying " +:+ filepath +:+ ":" +:+ LF
         +:+ Py.join (map (fun errorline => " - " +:+ errorline +:+ LF) errorlines)
         +:+ LF)
    +:+ errormsg_of post.
Proof.
  unfold errormsg_of. rewrite !fold_append. cbn [String.append].
  rewrite map_app, join_app. cbn [map Py.join fold_right].
  fold (Py.join (map error_block post)).
  unfold error_block at 2, bullets. cbn [fst snd].
  rewrite (fold_append (fun errorline => " - " +:+ errorline +:+ LF)).
  reflexivity.
Qed.

Section MoreNotification.

Variable MAIL_MAP : gmap string string.
Variable extra_recips : option (list string).
Variable format_template : alert_locals -> string.

(** [alert_project] does nothing for an empty report.  For another
    one it sends one mail, or with [--debug] on the command line
    prints the text and sends nothing.  The mail goes first to the
    private list of the project, named after the project unless the
    committee information gives another name, then to the extra
    recipients of the configuration. *)
Theorem alert_project_outcome argv project errors :
  alert_project MAIL_MAP extra_recips format_template argv project [] = Silent
  /\ (errors <> [] ->
      exists text,
        alert_project MAIL_MAP extra_recips format_template argv project errors
        = if bool_decide ("--debug" ∈ argv) then Printed text
          else Sent {| sender := "ASF Infrastructure <root@apache.org>";
                       subject := "Verification of download artefacts on dist.apache.org FAILED for "
                                  +:+ project +:+ "!";
                       recipients :=
                         ("private@" +:+ default project (MAIL_MAP !! project)
                          +:+ ".apache.org") :: default [] extra_recips;
                       message := text |}).
Proof.
  split; [reflexivity|]. intros Hne.
  destruct errors as [|entry errors]; [congruence|].
  cbn [alert_project]. eexists.
  destruct (bool_decide ("--debug" ∈ argv)); cbn [negb]; [reflexivity|].
  f_equal. f_equal. unfold recipients_of, project_list_of.
  destruct (MAIL_MAP !! project), extra_recips; reflexivity.
Qed.

End MoreNotification.

(** ** The test harness *)

Lemma intercept_file_first_line entry entry' acc :
  fst entry = fst entry' -> head (snd entry) = head (snd entry') ->
  intercept_file entry acc = intercept_file entry' acc.
Proof.
  destruct entry as [p l], entry' as [p' l']. cbn [fst snd]. intros -> H.
  unfold intercept_file. cbn [fst snd].
  destruct l as [|a l], l' as [|a' l']; try discriminate H; [reflexivity|].
  injection H as ->. reflexivity.
Qed.

(** The harness compares the first error line of each file with the
    expectation and looks at no other line: two reports with the same
    files and the same first lines are judged alike. *)
Theorem harness_first_line_only project errors errors' h :
  map (fun e => (fst e, head (snd e))) errors
  = map (fun e => (fst e, head (snd e))) errors' ->
  alert_project_intercept project errors h = alert_project_intercept project errors' h.
Proof.
  intros H. unfold alert_project_intercept.
  destruct (RESULTS h !! project) as [results|]; [|reflexivity].
  assert (forall acc, for_each intercept_file errors acc
                      = for_each intercept_file errors' acc) as ->; [|reflexivity].
  revert errors' H. induction errors as [|e l IH]; intros [|e' l'] H acc;
    try discriminate H; [reflexivity|].
  injection H as Hf Hh Hl. cbn [for_each].
  rewrite (intercept_file_first_line e e' acc Hf Hh).
  destruct (intercept_file e' acc); [apply IH, Hl|reflexivity].
Qed.

(** For a project without expectation the harness counts one deviation,
    whatever the report.  Otherwise it counts one for each file of the
    report that deviates, and takes the files of the report out of the
    expectations of the project, which keeps the others to be counted
    as unseen at the end. *)
Theorem harness_counts_deviations project errors h :
  (RESULTS h !! project = None ->
     alert_project_intercept project errors h
     = Ok {| RESULTS := RESULTS h; total_errors := S (total_errors h) |})
  /\ (forall expected,
        RESULTS h !! project = Some expected ->
        NoDup (map fst errors) ->
        (forall entry, entry ∈ errors -> snd entry <> []) ->
        exists rest,
          alert_project_intercept project errors h
          = Ok {| RESULTS := <[project := rest]> (RESULTS h);
                  total_errors :=
                    total_errors h + length (List.filter (deviates expected) errors) |}
          /\ forall p, rest !! p
                       = if bool_decide (p ∈ map fst errors) then None
                         else expected !! p).
Proof.
  split.
  - intros H. unfold alert_project_intercept. rewrite H. reflexivity.
  - intros expected Hp Hnd Hall. unfold alert_project_intercept. rewrite Hp.
    assert (forall (results : gmap string string) n,
              NoDup (map fst errors) ->
              (forall entry, entry ∈ errors -> snd entry <> []) ->
              exists rest,
                for_each intercept_file errors (results, n)
                = Ok (rest, n + length (List.filter (deviates results) errors))
                /\ forall p, rest !! p
                             = if bool_decide (p ∈ map fst errors) then None
                               else results !! p) as G.
    { clear. induction errors as [|[p ls] l IH]; intros results n Hnd Hall.
      - exists results. split; [cbn; rewrite Nat.add_0_r; reflexivity|]. intros p.
        rewrite bool_decide_eq_false_2; [reflexivity|]. intros H. inversion H.
      - cbn [map fst] in Hnd. apply NoDup_cons in Hnd as [Hp Hnd].
        pose proof (Hall (p, ls) (list_elem_of_here _ _)) as Hls. cbn [snd] in Hls.
        destruct ls as [|actual others]; [congruence|]. clear Hls.
        assert (forall r', (forall q, q <> p -> r' !! q = results !! q) ->
                  List.filter (deviates r') l = List.filter (deviates results) l) as Hsame.
        { intros r' Hr'. apply filter_ext_in. intros [q lq] Hq. unfold deviates.
          cbn [fst snd]. rewrite Hr'; [reflexivity|]. intros ->. apply Hp.
          apply list_elem_of_fmap. exists (p, lq). split; [reflexivity|].
          apply list_elem_of_In, Hq. }
        assert (forall r' k,
                  (forall q, q <> p -> r' !! q = results !! q) -> r' !! p = None ->
                  exists rest,
                    for_each intercept_file l (r', k)
                    = Ok (rest, k + length (List.filter (deviates results) l))
                    /\ forall q, rest !! q
                                 = if bool_decide (q ∈ p :: map fst l) then None
                                   else results !! q) as Hrest.
        { intros r' k Hr' Hnone.
          destruct (IH r' k Hnd) as (rest & E & Hr).
          { intros e He. apply Hall. right. exact He. }
          exists rest. rewrite E, (Hsame r' Hr'). split; [reflexivity|].
          intros q. rewrite Hr. destruct (decide (q = p)) as [->|Hq].
          - rewrite (bool_decide_eq_true_2 (p ∈ p :: map fst l)) by left.
            destruct (bool_decide _); [reflexivity|exact Hnone].
          - rewrite (Hr' q Hq). destruct (bool_decide (q ∈ map fst l)) eqn:B.
            + apply bool_decide_eq_true in B.
              rewrite bool_decide_eq_true_2; [reflexivity|right; exact B].
            + apply bool_decide_eq_false in B.
              rewrite bool_decide_eq_false_2; [reflexivity|].
              intros H. apply elem_of_cons in H as [H|H]; [congruence|exact (B H)]. }
        cbn [for_each List.filter map fst]. unfold deviates at 1. cbn [fst snd head].
        destruct (results !! p) as [exp|] eqn:Hexp.
        + assert (intercept_file (p, actual :: others) (results, n)
                  = Ok (delete p results,
                        if negb (String.eqb exp actual) then S n else n)) as ->.
          { unfold intercept_file. cbn [fst snd]. rewrite Hexp.
            destruct (negb _); reflexivity. }
          cbn [mbind res_bind].
          destruct (Hrest (delete p results)
                      (if negb (String.eqb exp actual) then S n else n))
            as (rest & -> & Hr).
          { intros q Hq. apply lookup_delete_ne. congruence. }
          { apply lookup_delete_eq. }
          exists rest. split; [|exact Hr]. f_equal. f_equal.
          destruct (String.eqb_spec exp actual) as [->|Hne]; cbn [negb].
          * rewrite bool_decide_eq_true_2 by reflexivity. reflexivity.
          * rewrite bool_decide_eq_false_2 by congruence. cbn [negb length]. lia.
        + assert (intercept_file (p, actual :: others) (results, n)
                  = Ok (results, S n)) as ->.
          { unfold intercept_file. cbn [fst snd]. rewrite Hexp. reflexivity. }
          cbn [mbind res_bind].
          destruct (Hrest results (S n)) as (rest & -> & Hr);
            [reflexivity|exact Hexp|].
          exists rest. split; [|exact Hr]. f_equal. f_equal.
          rewrite bool_decide_eq_false_2 by discriminate. cbn [negb length]. lia. }
    destruct (G expected (total_errors h) Hnd Hall) as (rest & -> & Hrest).
    exists rest. split; [reflexivity|exact Hrest].
Qed.

(** * More runs on the small tree *)

Lemma clean_artifact_not_reported_witness :
  exists st',
    verify_artifact Fixture.hashlib Fixture.decode Fixture.gpg_verify (Fixture.cfg None)
      (Fixture.keys_tree None) [Fixture.key_a] (known_fingerprints [Fixture.key_a])
      "/dist/p" "a.zip" init_locals = Ok st'
    /\ errors st' = errors init_locals
    /\ (1 <= valid_checksums_found st')%Z.
Proof.
  apply (clean_artifact_not_reported Fixture.hashlib Fixture.decode Fixture.gpg_verify
           (Fixture.cfg None) (Fixture.keys_tree None) [Fixture.key_a]
           (known_fingerprints [Fixture.key_a]) "/dist/p" "a.zip" init_locals).
  - intros m Hm Hex. apply elem_of_cons in Hm as [->|Hm]; [vm_compute; reflexivity|].
    apply elem_of_cons in Hm as [->|Hm]; [vm_compute in Hex; discriminate Hex|].
    inversion Hm.
  - exists "sha256". split; [left|vm_compute; reflexivity].
  - right. exists "SIG A 1500000000". split; vm_compute; reflexivity.
Defined.

Lemma unexpired_key_status_line_witness :
  let w := Fixture.tree 10 [("asc", "EXPSIG A 1500000000")] in
  let st := push "/dist/p/a.zip" (Line (msg_no_strong_checksum "a.zip")) init_locals in
  exists st',
    verify_signature Sample.gpg_verify w [Fixture.key_a]
      (known_fingerprints [Fixture.key_a]) "a.zip" "/dist/p/a.zip" st = Ok st'
    /\ errors st' !! "/dist/p/a.zip"
       = Some ["No valid checksum files (.sha256, .sha512) found for a.zip";
               "Detached signature file a.zip.asc could not be used to verify a.zip: signature expired"].
Proof.
  cbv zeta.
  assert (1500000000 <= 1600000000)%Z as Hle by lia.
  assert (Some "signature expired" <> Some "signature valid") as Hne by discriminate.
  destruct (proj2 (unexpired_key_status_line Sample.gpg_verify
                     (Fixture.tree 10 [("asc", "EXPSIG A 1500000000")]) [Fixture.key_a]
                     (known_fingerprints [Fixture.key_a]) "a.zip" "/dist/p/a.zip"
                     (push "/dist/p/a.zip" (Line (msg_no_strong_checksum "a.zip"))
                        init_locals)
                     "EXPSIG A 1500000000" Fixture.key_a
                     1600000000%Z 1500000000%Z eq_refl eq_refl eq_refl eq_refl eq_refl Hle)
            Hne) as (st' & H & E & _).
  exists st'. split; [exact H|exact E].
Defined.

Lemma signature_conversion_raises_witness :
  verify_signature Sample.gpg_verify
    (Fixture.tree 10 [("asc", "REVKEYSIG B 1500000000")]) [Sample.key_b]
    (known_fingerprints [Sample.key_b]) "a.zip" "/dist/p/a.zip" init_locals
  = Raise ValueError.
Proof.
  refine (proj2 (proj2 (proj2
            (signature_conversion_raises Sample.gpg_verify
               (Fixture.tree 10 [("asc", "REVKEYSIG B 1500000000")]) [Sample.key_b]
               (known_fingerprints [Sample.key_b]) "a.zip" "/dist/p/a.zip"
               init_locals "REVKEYSIG B 1500000000" Sample.key_b _ _ _))) _).
  - vm_compute. reflexivity.
  - vm_compute. reflexivity.
  - vm_compute. reflexivity.
  - reflexivity.
Defined.

Lemma exception_aborts_pass_witness :
  verify_files Fixture.hashlib Fixture.decode Sample.gpg_verify (Fixture.cfg None)
    (Fixture.tree 10 [("sha256", Fixture.sha256_of_payload);
                      ("asc", "REVKEYSIG B 1500000000")])
    "p" [Sample.key_b]
  = Raise ValueError.
Proof.
  apply (exception_aborts_pass Fixture.hashlib Fixture.decode Sample.gpg_verify (Fixture.cfg None)
           (Fixture.tree 10 [("sha256", Fixture.sha256_of_payload);
                             ("asc", "REVKEYSIG B 1500000000")])
           "p" [Sample.key_b] [] "/dist/p" "a.zip" [] init_locals ValueError).
  - vm_compute. reflexivity.
  - vm_compute. reflexivity.
  - vm_compute. reflexivity.
Defined.

Lemma no_algorithm_configured_witness :
  verify_checksums Fixture.hashlib Fixture.decode (Sample.cfg_no_algorithm (Some 100%Q))
    (Fixture.tree 50 []) "a.zip" "/dist/p/a.zip" init_locals
  = Raise UnboundLocalError.
Proof.
  refine (proj2 (no_algorithm_configured Fixture.hashlib Fixture.decode
                   (Sample.cfg_no_algorithm (Some 100%Q)) (Fixture.tree 50 [])
                   "a.zip" "/dist/p/a.zip" init_locals (File "payload" 50) _ _ _) _ _).
  - reflexivity.
  - reflexivity.
  - vm_compute. reflexivity.
  - vm_compute. discriminate.
  - reflexivity.
Defined.

Lemma check_strong_failures_witness :
  path_exists (Fixture.tree 10 [("crc32", "00")]) ("/dist/p/a.zip" +:+ "." +:+ "crc32")
  = true.
Proof.
  refine (proj1 (check_strong_failures Fixture.hashlib Fixture.decode
                   (Fixture.tree 10 [("crc32", "00")]) "/dist/p/a.zip" "crc32"
                   init_locals ValueError _)).
  vm_compute. reflexivity.
Defined.

(** The exceptions of a strong checksum at work: a side file that is
    not UTF-8, an algorithm of variable length, an algorithm that
    [hashlib] does not have. *)
Example check_strong_raises :
  check_strong Fixture.hashlib Fixture.decode
    (Fixture.tree 10 [("sha256", String "255" "")]) "/dist/p/a.zip" "sha256" init_locals
  = Raise UnicodeDecodeError
  /\ check_strong Fixture.hashlib Fixture.decode
       (Fixture.tree 10 [("shake_128", "00")]) "/dist/p/a.zip" "shake_128" init_locals
     = Raise TypeError
  /\ check_strong Fixture.hashlib Fixture.decode
       (Fixture.tree 10 [("crc32", "00")]) "/dist/p/a.zip" "crc32" init_locals
     = Raise ValueError.
Proof. repeat split; vm_compute; reflexivity. Qed.

Lemma load_keys_other_homes_witness :
  ({[ "/gpg/p" := [Fixture.key_z; Fixture.key_a]; "/gpg/q" := [Sample.key_b] ]}
     : gmap string (list key)) !! "/gpg/q"
  = ({[ "/gpg/p" := [Fixture.key_z]; "/gpg/q" := [Sample.key_b] ]}
       : gmap string (list key)) !! "/gpg/q".
Proof.
  refine (proj1 (load_keys_other_homes Fixture.gpg_parse (Fixture.cfg None)
                   (Fixture.keys_tree (Some "KEY A"))
                   {[ "/gpg/p" := [Fixture.key_z]; "/gpg/q" := [Sample.key_b] ]} "p"
                   {[ "/gpg/p" := [Fixture.key_z; Fixture.key_a];
                      "/gpg/q" := [Sample.key_b] ]}
                   [Fixture.key_z; Fixture.key_a] _) "/gpg/q" _).
  - vm_compute. reflexivity.
  - vm_compute. discriminate.
Defined.

Lemma scan_pass_reports_witness :
  map fst [("p", (∅ : gmap string (list string)))] = ["p"]
  /\ forall h keyring,
       ({[ "/gpg/p" := [Fixture.key_z] ]} : gmap string (list key)) !! h = Some keyring ->
       exists keyring',
         ({[ "/gpg/p" := [Fixture.key_z; Fixture.key_a] ]} : gmap string (list key)) !! h
         = Some keyring'
         /\ keeps keyring keyring'.
Proof.
  apply (scan_pass_reports Fixture.hashlib Fixture.decode Fixture.gpg_verify Fixture.gpg_parse
           (Fixture.cfg None) ["p"] (Fixture.keys_tree (Some "KEY A"))
           {[ "/gpg/p" := [Fixture.key_z] ]}
           {[ "/gpg/p" := [Fixture.key_z; Fixture.key_a] ]} [("p", ∅)]).
  vm_compute. reflexivity.
Defined.

Lemma harness_first_line_only_witness :
  let h := {| RESULTS := {[ "p" := {[ "/dist/p/a.zip" := "first of a" ]} ]};
              total_errors := 0 |} in
  alert_project_intercept "p" Sample.report h
  = alert_project_intercept "p"
      [("/dist/p/a.zip", ["first of a"]); ("/dist/p/b.zip", ["first of b"; "more"])] h.
Proof.
  apply (harness_first_line_only "p" Sample.report
           [("/dist/p/a.zip", ["first of a"]); ("/dist/p/b.zip", ["first of b"; "more"])]).
  reflexivity.
Defined.

(** The harness on a report of two files of which one is expected: one
    deviation, and nothing left to be counted as unseen. *)
Example harness_run :
  let h := {| RESULTS := {[ "p" := {[ "/dist/p/a.zip" := "first of a" ]} ]};
              total_errors := 0 |} in
  (final_total <$> match alert_project_intercept "p" Sample.report h with
                   | Ok h' => Some h'
                   | Raise _ => None
                   end) = Some 1%nat.
Proof. vm_compute. reflexivity. Qed.

(** The two layouts of the recipients and the text of the errors. *)
Example alert_run :
  alert_project {[ "p" := "pee" ]} (Some ["infra@example.org"]) al_errormsg
    ["main.py"] "p" Sample.report
  = Sent {| sender := "ASF Infrastructure <root@apache.org>";
            subject := "Verification of download artefacts on dist.apache.org FAILED for p!";
            recipients := ["private@pee.apache.org"; "infra@example.org"];
            message :=
              "Errors were found while verifying /dist/p/a.zip:" +:+ LF
              +:+ " - first of a" +:+ LF +:+ " - second of a" +:+ LF +:+ LF
              +:+ "Errors were found while verifying /dist/p/b.zip:" +:+ LF
              +:+ " - first of b" +:+ LF +:+ LF |}.
Proof. vm_compute. reflexivity. Qed.
